(** * Conntrack netlink consumer (pkg/ebpf/netlink/consumer.go)

    A shallow embedding of the consumer: the buffer pool, the per-message
    check, the classification of socket errors, socket (re)creation with a
    sampling rate, the throttle protocol and the receive loop shared by
    [Events] and [DumpTable].

    Effects are kept explicit.  The worker is single threaded, so the code
    is a state transformer over the consumer's fields; every call that
    leaves the consumer (socket, connection, circuit breaker, log, output
    channel) is written to a trace, and what the kernel answers to such a
    call is an input of the model. *)

From Stdlib Require Import ZArith List Bool Lia String Ascii QArith Qabs.
From Stdlib.Strings Require Import Byte.
From Stdlib Require Import PrimFloat SpecFloat FloatOps.
From Stdlib Require Zbitwise.
Import ListNotations.

Local Close Scope Q_scope.
Local Open Scope Z_scope.
Set Warnings "-inexact-float".

(** ** Errors *)

(** Go's [error] values that the consumer sees: the four package-level
    values made with [errors.New], raw system call numbers, an error
    wrapped by [fmt.Errorf("...: %w", err)], and errors of collaborators,
    which the consumer only ever inspects through their message. *)
Inductive error : Type :=
| errShortErrorMessage
| errMaxSamplingAttempts
| errEOF
| errENOBUF
| Errno (n : Z)
| Errorf (prefix : string) (wrapped : error)
| errorString (msg : string).

Inductive ByteOrder : Type := LittleEndian | BigEndian.

(** What the platform fixes: the byte order [nlenc] decodes with, and the
    text [syscall.Errno.Error] gives for an error number. *)
Class Platform : Type := {
  NativeEndian : ByteOrder;
  errnoString : Z -> string
}.

(** ** strings.Contains *)

Fixpoint Contains (s substr : string) : bool :=
  if String.prefix substr s then true
  else match s with
       | EmptyString => false
       | String _ s' => Contains s' substr
       end.

(** ** netlink messages (github.com/mdlayher/netlink) *)

Module netlink.

Record Header : Type := {
  Length : Z;
  Type_ : Z;
  Flags : Z;
  Sequence : Z;
  PID : Z
}.

Record Message : Type := {
  Hdr : Header;
  Data : list byte
}.

(** Header types. *)
Definition Noop : Z := 1.
Definition Error : Z := 2.
Definition Done : Z := 3.
Definition Overrun : Z := 4.

(** Header flags. *)
Definition Request : Z := 1.
Definition Dump : Z := 768.

End netlink.

Module nlenc.

Definition byteZ (b : byte) : Z := Z.of_N (Byte.to_N b).

(** [Uint32] reads four bytes in the native order; any other length
    panics, which is [None] here. *)
Definition Uint32 `{Platform} (b : list byte) : option Z :=
  match b with
  | [b0; b1; b2; b3] =>
      Some (match NativeEndian with
            | LittleEndian =>
                Z.lor (Z.lor (byteZ b0) (Z.shiftl (byteZ b1) 8))
                      (Z.lor (Z.shiftl (byteZ b2) 16) (Z.shiftl (byteZ b3) 24))
            | BigEndian =>
                Z.lor (Z.lor (byteZ b3) (Z.shiftl (byteZ b2) 8))
                      (Z.lor (Z.shiftl (byteZ b1) 16) (Z.shiftl (byteZ b0) 24))
            end)
  | _ => None
  end.

(** The conversion [int32(u)] of a 32-bit unsigned value. *)
Definition toInt32 (u : Z) : Z :=
  if u <? 2 ^ 31 then u else u - 2 ^ 32.

Definition Int32 `{Platform} (b : list byte) : option Z :=
  option_map toInt32 (Uint32 b).

End nlenc.

(** ** Constants of the package *)

Definition netlinkCtNew : Z := 1.
Definition ipctnlMsgCtGet : Z := 1.
Definition outputBuffer : Z := 100.
Definition maxMessagesPerSecond : Z := 1000.
Definition throttlingFactor : float := 0.8%float.
Definition minSamplingThreshold : float := 0.2%float.

(** golang.org/x/sys/unix *)
Definition NFNL_SUBSYS_CTNETLINK : Z := 1.
Definition NFNETLINK_V0 : byte := x00.

(** The error text of an [error] value, [err.Error()]. *)
Fixpoint Error_ `{Platform} (e : error) : string :=
  match e with
  | errShortErrorMessage => "not enough data for netlink error code"
  | errMaxSamplingAttempts => "netlink socket creation: too many attempts"
  | errEOF => "EOF"
  | errENOBUF => "ENOBUF"
  | Errno n => errnoString n
  | Errorf prefix wrapped => prefix ++ Error_ wrapped
  | errorString msg => msg
  end%string.

(** ** socketError *)

Definition socketError `{Platform} (err : error) : error :=
  if Contains (Error_ err) "closed file" then errEOF
  else if Contains (Error_ err) "no buffer space" then errENOBUF
  else err.

(** ** checkMessage *)

(** The conversion [syscall.Errno(n)] of an [int] to [uintptr] (64 bits). *)
Definition uintptr (n : Z) : Z := n mod 2 ^ 64.

Definition success : Z := 0.

Definition checkMessage `{Platform} (m : netlink.Message) : option error :=
  if negb (netlink.Type_ (netlink.Hdr m) =? netlink.Error) then None
  else if (Z.of_nat (List.length (netlink.Data m)) <? 4) then Some errShortErrorMessage
  else match nlenc.Int32 (firstn 4 (netlink.Data m)) with
       | Some c =>
           if negb (c =? success) then Some (Errno (uintptr (-1 * c)))
           else None
       | None => None
       end.

(** ** The buffer pool *)

(** A buffer is known by its address; [sync.Pool] is a bag of free
    buffers that makes a new one when it is empty.  Which free buffer [Get]
    takes is for [sync.Pool] to choose; the bag is kept as a list here and
    [Get] takes its head, and the properties below are stated on how many
    times the bag holds a buffer, never on the order of the list. *)
Definition bufptr : Type := nat.

Record syncPool : Type := {
  free : list bufptr;
  made : nat
}.

Definition syncPool_Get (p : syncPool) : bufptr * syncPool :=
  match free p with
  | b :: rest => (b, {| free := rest; made := made p |})
  | [] => (made p, {| free := []; made := S (made p) |})
  end.

Definition syncPool_Put (b : bufptr) (p : syncPool) : syncPool :=
  {| free := b :: free p; made := made p |}.

Record bufferPool : Type := {
  inUse : option bufptr;
  Pool : syncPool
}.

Definition newBufferPool : bufferPool :=
  {| inUse := None; Pool := {| free := []; made := 0 |} |}.

Definition bufferPool_Get (b : bufferPool) : bufptr * bufferPool :=
  let (buf, p) := syncPool_Get (Pool b) in
  (buf, {| inUse := Some buf; Pool := p |}).

Definition bufferPool_Put (buf : bufptr) (b : bufferPool) : bufferPool :=
  {| inUse := inUse b; Pool := syncPool_Put buf (Pool b) |}.

Definition bufferPool_Reset (b : bufferPool) : bufferPool :=
  {| inUse := None; Pool := Pool b |}.

(** ** Events *)

(** The [pool] field of an [Event] points at the consumer's pool, the one
    pool of the model; [Done] therefore acts on that pool. *)
Record Event : Type := {
  msgs : list netlink.Message;
  buffer : option bufptr
}.

Definition Messages (e : Event) : list netlink.Message := msgs e.

Definition Done (e : Event) (p : bufferPool) : bufferPool :=
  match buffer e with
  | Some buf => bufferPool_Put buf p
  | None => p
  end.

(** ** The circuit breaker *)

(** The breaker (circuit_breaker.go) is a collaborator of the consumer:
    the consumer only calls [Tick], [IsOpen] and [Reset] on it, so it is
    taken as an interface over a state [B]. *)
Class CircuitBreaker (B : Type) : Type := {
  NewCircuitBreaker : Z -> B;
  Tick : B -> Z -> B;
  IsOpen : B -> bool;
  Reset : B -> B
}.

(** ** Calls that leave the consumer *)

Inductive level : Type := Debugf | Infof | Warnf | Errorf_.

Inductive logArg : Type :=
| argError (e : error)
| argFloat (f : float)
| argInt (n : Z).

(** A socket is known by its number in creation order; a connection by
    the socket it was made from. *)
Definition sockid : Type := nat.

Inductive action : Type :=
| CallNewSocket
| CallSetBufferSize (conn : option sockid)
| CallGetBufferSize (conn : option sockid)
| CallSetBPF (socket : option sockid) (rate : float)
| CallSocketClose (socket : option sockid)
| CallReceive (socket : option sockid)
| CallJoinGroup (conn : option sockid) (group : Z)
| CallLeaveGroup (conn : option sockid) (group : Z)
| CallSend (conn : option sockid) (req : netlink.Message)
| CallValidate (req verify : netlink.Message)
| CallConnClose (conn : option sockid)
| CallTick (n : Z)
| CallIsOpen
| CallReset
| ChanSend (e : Event)
| ChanClose
| Log (l : level) (format : string) (args : list logArg).

(** What the kernel and the socket layer answer while a socket is
    replaced: the error, if any, of each call. *)
Record Answers : Type := {
  ansLeaveGroup : option error;
  ansNewSocket : option error;
  ansSetBufferSize : option error;
  ansGetBufferSize : Z * option error;
  ansSetBPF : option error
}.

(** What happens during one turn of the read loop: the result of
    [Socket.Receive], and the answers to a throttle if one takes place. *)
Record Iteration : Type := {
  recvMsgs : list netlink.Message;
  recvErr : option error;
  answers : Answers
}.

(** How a turn of the read loop ends: [continue] (or falling off the end
    of the body), or [return]. *)
Inductive control : Type := Continue | Return.

(** Where the loop is once the recorded turns are used up: it has
    returned, or it is at the top of the loop, about to read again. *)
Inductive status : Type := Returned | Running.

Section Consumer.

Context `{Platform} {B : Type} `{CircuitBreaker B}.

(** The [Consumer] struct.  [workQueue] only carries the closures to
    the worker and is left out: a dispatched closure is run directly. *)
Record Consumer : Type := {
  conn : option sockid;
  socket : option sockid;
  pool : bufferPool;
  samplingRate : float;
  breaker : B
}.

(** The state the worker owns: the consumer and the number of sockets
    made so far. *)
Record World : Type := {
  consumer : Consumer;
  sockets : nat
}.

(** *** A state monad that also writes the trace of calls *)

Definition M (A : Type) : Type := World -> A * World * list action.

Definition ret {A : Type} (a : A) : M A := fun w => (a, w, []).

Definition bind {A C : Type} (m : M A) (k : A -> M C) : M C :=
  fun w =>
    let '(a, w1, t1) := m w in
    let '(c, w2, t2) := k a w1 in
    (c, w2, t1 ++ t2).

Notation "x <- m ;; k" := (bind m (fun x => k))
  (at level 61, m at next level, right associativity).
Notation "m ;; k" := (bind m (fun _ => k))
  (at level 61, right associativity).

Definition result {A : Type} (r : A * World * list action) : A := fst (fst r).
Definition world {A : Type} (r : A * World * list action) : World := snd (fst r).
Definition trace {A : Type} (r : A * World * list action) : list action := snd r.

Definition getc : M Consumer := fun w => (consumer w, w, []).

Definition modify (f : Consumer -> Consumer) : M unit :=
  fun w => (tt, {| consumer := f (consumer w); sockets := sockets w |}, []).

Definition call (a : action) : M unit := fun w => (tt, w, [a]).

Definition logf (l : level) (format : string) (args : list logArg) : M unit :=
  call (Log l format args).

Definition whenErr (e : option error) (k : error -> M unit) : M unit :=
  match e with
  | Some err => k err
  | None => ret tt
  end.

(** *** Field updates *)

Definition set_socket (s : option sockid) (c : Consumer) : Consumer :=
  {| conn := conn c; socket := s; pool := pool c;
     samplingRate := samplingRate c; breaker := breaker c |}.

Definition set_conn (s : option sockid) (c : Consumer) : Consumer :=
  {| conn := s; socket := socket c; pool := pool c;
     samplingRate := samplingRate c; breaker := breaker c |}.

Definition set_pool (p : bufferPool) (c : Consumer) : Consumer :=
  {| conn := conn c; socket := socket c; pool := p;
     samplingRate := samplingRate c; breaker := breaker c |}.

Definition set_samplingRate (r : float) (c : Consumer) : Consumer :=
  {| conn := conn c; socket := socket c; pool := pool c;
     samplingRate := r; breaker := breaker c |}.

Definition set_breaker (b : B) (c : Consumer) : Consumer :=
  {| conn := conn c; socket := socket c; pool := pool c;
     samplingRate := samplingRate c; breaker := b |}.

(** *** The collaborators, as calls *)

(** [c.socket, err = NewSocket(c.pool)]: a new socket gets the next
    number; on an error the socket returned is nil. *)
Definition NewSocket (a : Answers) : M (option error) :=
  call CallNewSocket ;;
  match ansNewSocket a with
  | Some err => modify (set_socket None) ;; ret (Some err)
  | None =>
      fun w =>
        (None, {| consumer := set_socket (Some (sockets w)) (consumer w);
                  sockets := S (sockets w) |}, [])
  end.

Definition setSocketBufferSize (a : Answers) : M (option error) :=
  c <- getc ;; call (CallSetBufferSize (conn c)) ;; ret (ansSetBufferSize a).

Definition getSocketBufferSize (a : Answers) : M (Z * option error) :=
  c <- getc ;; call (CallGetBufferSize (conn c)) ;; ret (ansGetBufferSize a).

(** [GenerateBPFSampler(rate)] followed by [c.socket.SetBPF(sampler)]:
    the filter is known by the rate it was generated for. *)
Definition SetBPF (a : Answers) (rate : float) : M (option error) :=
  c <- getc ;; call (CallSetBPF (socket c) rate) ;; ret (ansSetBPF a).

Definition LeaveGroup (a : Answers) (group : Z) : M (option error) :=
  c <- getc ;; call (CallLeaveGroup (conn c) group) ;; ret (ansLeaveGroup a).

Definition JoinGroup (group : Z) : M unit :=
  c <- getc ;; call (CallJoinGroup (conn c) group).

Definition socket_Close : M unit :=
  c <- getc ;; call (CallSocketClose (socket c)).

Definition pool_Reset : M unit :=
  modify (fun c => set_pool (bufferPool_Reset (pool c)) c).

(** Modelled from the spec: Socket.Receive (socket.go is not part of the
    sources) takes its buffer from the pool with [Get], which makes it the
    buffer in use, and returns the batch read or an error. *)
Definition socket_Receive (it : Iteration)
  : M (list netlink.Message * option error) :=
  c <- getc ;;
  call (CallReceive (socket c)) ;;
  modify (fun c => set_pool (snd (bufferPool_Get (pool c))) c) ;;
  ret (recvMsgs it, recvErr it).

Definition breaker_Tick (n : Z) : M unit :=
  call (CallTick n) ;;
  modify (fun c => set_breaker (Tick (breaker c) n) c).

Definition breaker_IsOpen : M bool :=
  call CallIsOpen ;; c <- getc ;; ret (IsOpen (breaker c)).

Definition breaker_Reset : M unit :=
  call CallReset ;;
  modify (fun c => set_breaker (Reset (breaker c)) c).

(** *** initNetlinkSocket *)

Definition initNetlinkSocket (a : Answers) (rate : float) : M (option error) :=
  (* This is a safeguard against too many attempts to re-create a socket *)
  if (rate <=? minSamplingThreshold)%float then ret (Some errMaxSamplingAttempts)
  else
    err <- NewSocket a ;;
    match err with
    | Some e => ret (Some e)
    | None =>
        c <- getc ;;
        modify (set_conn (socket c)) ;;
        e1 <- setSocketBufferSize a ;;
        whenErr e1 (fun e =>
          logf Errorf_ "error setting rcv buffer size for netlink socket: %s"
               [argError e]) ;;
        r <- getSocketBufferSize a ;;
        match snd r with
        | None => logf Debugf "rcv buffer size for netlink socket is %d bytes"
                       [argInt (fst r)]
        | Some _ => ret tt
        end ;;
        (* Attach BPF sampling filter if necessary *)
        modify (set_samplingRate rate) ;;
        if (1.0 <=? rate)%float then ret None
        else
          logf Infof "attaching netlink BPF filter with sampling rate: %.2f"
               [argFloat rate] ;;
          e2 <- SetBPF a rate ;;
          match e2 with
          | Some e => ret (Some (Errorf "failed to attach BPF filter: " e))
          | None => ret None
          end
    end.

(** *** throttle *)

Definition throttle (a : Answers) : M (option error) :=
  leaveErr <- LeaveGroup a netlinkCtNew ;;
  whenErr leaveErr (fun e =>
    logf Errorf_ "netlink: error leaving group: %s" [argError e]) ;;
  socket_Close ;;
  c <- getc ;;
  err <- initNetlinkSocket a (samplingRate c * throttlingFactor)%float ;;
  match err with
  | Some e =>
      logf Errorf_ "failed to re-create netlink socket. exiting conntrack: %s"
           [argError e] ;;
      ret (Some e)
  | None =>
      (* Reset circuit breaker *)
      breaker_Reset ;;
      (* Re-subscribe netlinkCtNew messages *)
      JoinGroup netlinkCtNew ;;
      ret None
  end.

(** *** eventFor *)

Definition eventFor (ms : list netlink.Message) : M Event :=
  c <- getc ;; ret {| msgs := ms; buffer := inUse (pool c) |}.

(** *** receive *)

(** The [for _, m := range msgs] loop: the first message, in order, that
    [checkMessage] rejects. *)
Fixpoint checkMessages (ms : list netlink.Message) : option error :=
  match ms with
  | [] => None
  | m :: rest =>
      match checkMessage m with
      | Some e => Some e
      | None => checkMessages rest
      end
  end.

(** [len(msgs) > 0 && msgs[len(msgs)-1].Header.Type == netlink.Done] *)
Definition lastIsDone (ms : list netlink.Message) : bool :=
  (0 <? Z.of_nat (List.length ms)) &&
  match nth_error ms (List.length ms - 1) with
  | Some m => netlink.Type_ (netlink.Hdr m) =? netlink.Done
  | None => false
  end.

Definition afterThrottle (throttlingErr : option error) : control :=
  match throttlingErr with
  | Some _ => Return
  | None => Continue
  end.

(** [throttlingErr := c.throttle()], then [return] on an error and
    [continue] otherwise. *)
Definition throttleAndContinue (a : Answers) : M control :=
  throttlingErr <- throttle a ;;
  ret (afterThrottle throttlingErr).

(** The end of a turn: the check of the messages, the done marker, and
    the send on the output channel.  The channel is bounded and a send on a
    full channel waits for its reader; the send is recorded when it is
    done. *)
Definition deliver (dump : bool) (ms : list netlink.Message) : M control :=
  (* Messages with error codes are simply skipped *)
  match checkMessages ms with
  | Some e =>
      logf Debugf "netlink message error: %s" [argError e] ;;
      ret Continue
  | None =>
      (* Skip multi-part "done" messages *)
      let multiPartDone := lastIsDone ms in
      let ms := if multiPartDone then firstn (List.length ms - 1) ms else ms in
      e <- eventFor ms ;;
      call (ChanSend e) ;;
      (* If we're doing a conntrack dump it means we are done after reading
         the multi-part message *)
      if dump && multiPartDone then ret Return else ret Continue
  end.

(** The turn once [Receive] gave a batch to work on. *)
Definition process (dump : bool) (a : Answers) (ms : list netlink.Message)
  : M control :=
  (* If the circuit breaker trips we throttle the netlink socket *)
  if negb dump then
    breaker_Tick (Z.of_nat (List.length ms)) ;;
    tripped <- breaker_IsOpen ;;
    if (tripped : bool) then throttleAndContinue a
    else deliver dump ms
  else deliver dump ms.

(** One turn of [ReadLoop]. *)
Definition readLoop (dump : bool) (it : Iteration) : M control :=
  pool_Reset ;;
  r <- socket_Receive it ;;
  match snd r with
  | Some err =>
      match socketError err with
      | errEOF =>
          (* EOFs are usually indicative of normal program termination, so
             we simply exit *)
          ret Return
      | errENOBUF =>
          if dump then
            logf Warnf "netlink: detected enobuf during conntrack table dump. consider raising rcvbuf capacity." [] ;;
            ret Return
          else
            logf Warnf "netlink: detected enobuf during streaming. will re-create socket with a lower sampling rate." [] ;;
            throttleAndContinue (answers it)
      | _ => process dump (answers it) (fst r)
      end
  | None => process dump (answers it) (fst r)
  end.

Fixpoint receive (dump : bool) (script : list Iteration) : M status :=
  match script with
  | [] => ret Running
  | it :: rest =>
      k <- readLoop dump it ;;
      match k with
      | Continue => receive dump rest
      | Return => ret Returned
      end
  end.

(** *** Events, DumpTable, Stop *)

(** The closure [Events] hands to the worker. *)
Definition Events (script : list Iteration) : M status :=
  JoinGroup netlinkCtNew ;;
  receive false script.

Definition dumpRequest (family : byte) : netlink.Message :=
  {| netlink.Hdr :=
       {| netlink.Length := 0;
          netlink.Type_ :=
            Z.lor (Z.shiftl NFNL_SUBSYS_CTNETLINK 8) ipctnlMsgCtGet;
          netlink.Flags := Z.lor netlink.Request netlink.Dump;
          netlink.Sequence := 0;
          netlink.PID := 0 |};
     netlink.Data := [family; NFNETLINK_V0; x00; x00] |}.

(** What the connection answers to the dump request: the message sent
    back for verification with the error of [Send], and the error of
    [netlink.Validate]. *)
Record DumpAnswers : Type := {
  ansSend : netlink.Message * option error;
  ansValidate : option error
}.

(** The closure [DumpTable] hands to the worker; [defer close(output)]
    runs when it ends, which it does unless the loop is still running. *)
Definition DumpTable (family : byte) (d : DumpAnswers)
           (script : list Iteration) : M status :=
  let req := dumpRequest family in
  c <- getc ;;
  call (CallSend (conn c) req) ;;
  match snd (ansSend d) with
  | Some err =>
      logf Errorf_ "netlink dump error: %s" [argError err] ;;
      call ChanClose ;;
      ret Returned
  | None =>
      call (CallValidate req (fst (ansSend d))) ;;
      match ansValidate d with
      | Some err =>
          logf Errorf_ "netlink dump message validation error: %s" [argError err] ;;
          call ChanClose ;;
          ret Returned
      | None =>
          st <- receive true script ;;
          match st with
          | Returned => call ChanClose ;; ret Returned
          | Running => ret Running
          end
      end
  end.

Definition Stop : M unit :=
  c <- getc ;; call (CallConnClose (conn c)).

(** *** NewConsumer *)

Definition newWorld : World :=
  {| consumer := {| conn := None; socket := None; pool := newBufferPool;
                    samplingRate := 0%float;
                    breaker := NewCircuitBreaker maxMessagesPerSecond |};
     sockets := 0%nat |}.

Definition NewConsumer (a : Answers) : option error * World * list action :=
  initNetlinkSocket a 1.0%float newWorld.

(** *** Reading a trace *)

Definition emitted (t : list action) : list Event :=
  flat_map (fun a => match a with ChanSend e => [e] | _ => [] end) t.

Definition closes (t : list action) : nat :=
  List.length (filter (fun a => match a with ChanClose => true | _ => false end) t).

Definition socketsBuilt (t : list action) : nat :=
  List.length (filter (fun a => match a with CallNewSocket => true | _ => false end) t).

Definition breakerCalls (t : list action) : nat :=
  List.length (filter (fun a => match a with
                                | CallTick _ | CallIsOpen | CallReset => true
                                | _ => false
                                end) t).

End Consumer.

Notation "x <- m ;; k" := (bind m (fun x => k))
  (at level 61, m at next level, right associativity).
Notation "m ;; k" := (bind m (fun _ => k))
  (at level 61, right associativity).

Arguments Consumer B : clear implicits.
Arguments World B : clear implicits.
Arguments M B A : clear implicits.

(** ** A platform and a breaker to run the model on *)

Definition linuxErrnoString (n : Z) : string :=
  if n =? 9 then "bad file descriptor"
  else if n =? 105 then "no buffer space available"
  else "errno".

Definition linux_amd64 : Platform :=
  {| NativeEndian := LittleEndian; errnoString := linuxErrnoString |}.

(** Modelled from the spec: the Circuit Breaker (circuit_breaker.go is not
    among the sources).  [Tick(n)] records that [n] messages were processed,
    [IsOpen()] reports whether what was recorded exceeds the ceiling, and
    [Reset()] clears what was recorded. *)
Record countingBreaker : Type := {
  ceiling : Z;
  count : Z
}.

Definition countingBreakerOps : CircuitBreaker countingBreaker :=
  {| NewCircuitBreaker := fun max => {| ceiling := max; count := 0 |};
     Tick := fun b n => {| ceiling := ceiling b; count := count b + n |};
     IsOpen := fun b => ceiling b <? count b;
     Reset := fun b => {| ceiling := ceiling b; count := 0 |} |}.

(** The kernel answering every call without an error. *)
Definition allFine : Answers :=
  {| ansLeaveGroup := None;
     ansNewSocket := None;
     ansSetBufferSize := None;
     ansGetBufferSize := (212992, None);
     ansSetBPF := None |}.

Definition header (type : Z) : netlink.Header :=
  {| netlink.Length := 0; netlink.Type_ := type; netlink.Flags := 0;
     netlink.Sequence := 0; netlink.PID := 0 |}.

Definition message (type : Z) (data : list byte) : netlink.Message :=
  {| netlink.Hdr := header type; netlink.Data := data |}.

(** A conntrack "new connection" message type, [(NFNL_SUBSYS_CTNETLINK << 8) | IPCTNL_MSG_CT_NEW]. *)
Definition ctNew : Z := 256.

(** ** Repeated throttling *)

(** The exact value of a finite binary64 number. *)
Definition float_to_Q (f : float) : option Q :=
  match Prim2SF f with
  | S754_zero _ => Some (inject_Z 0)
  | S754_finite s m e =>
      let z := if s then Z.neg m else Z.pos m in
      Some (if 0 <=? e then inject_Z (z * 2 ^ e)
            else Qmake z (2 ^ Z.to_pos (- e)))
  | S754_infinity _ => None
  | S754_nan => None
  end.

(** [closeTo r q]: the binary64 number [r] is finite and within [1e-15] of
    the rational [q]. *)
Definition closeTo (r : float) (q : Q) : bool :=
  match float_to_Q r with
  | Some x => Qle_bool (Qabs (x - q)) (1 # 1000000000000000)
  | None => false
  end.

(** What one throttle did: the error it returned, the sampling rate of the
    consumer after it, and the number of sockets it built. *)
Record outcome : Type := {
  returned : option error;
  rateAfter : float;
  built : nat
}.

(** [n] calls of [throttle] in a row, each answered by [a]. *)
Fixpoint throttleRun {B : Type} `{CircuitBreaker B}
         (a : Answers) (n : nat) (w : World B) : list outcome :=
  match n with
  | O => []
  | S k =>
      let r := throttle a w in
      {| returned := result r;
         rateAfter := samplingRate (consumer (world r));
         built := socketsBuilt (trace r) |}
      :: throttleRun a k (world r)
  end.

(** The rates of the list [rs] are, one by one, close to the rationals
    of the list [qs]. *)
Fixpoint allClose (rs : list float) (qs : list Q) : bool :=
  match rs, qs with
  | [], [] => true
  | r :: rs', q :: qs' => closeTo r q && allClose rs' qs'
  | _, _ => false
  end.

(** 1.0, 0.8, 0.64, 0.512, 0.4096, 0.32768, 0.262144, 0.2097152 *)
Definition listedRates : list Q :=
  [1 # 1; 8 # 10; 64 # 100; 512 # 1000; 4096 # 10000; 32768 # 100000;
   262144 # 1000000; 2097152 # 10000000]%Q.

(** The calls [initNetlinkSocket] makes while it builds a socket. *)
Definition isBuildAction (a : action) : bool :=
  match a with
  | CallNewSocket | CallSetBufferSize _ | CallGetBufferSize _
  | CallSetBPF _ _ | Log _ _ _ => true
  | _ => false
  end.

(** The same turn of the loop with the error of [Receive] taken away. *)
Definition withoutError (it : Iteration) : Iteration :=
  {| recvMsgs := recvMsgs it; recvErr := None; answers := answers it |}.

(** The batch as the loop emits it: without its last message when that is a
    done marker. *)
Definition strip (ms : list netlink.Message) : list netlink.Message :=
  if lastIsDone ms then firstn (List.length ms - 1) ms else ms.

Definition isDone (m : netlink.Message) : bool :=
  netlink.Type_ (netlink.Hdr m) =? netlink.Done.

(** [Receive] gave a batch that the loop goes on to process: there was no
    error, or an error that is neither end-of-stream nor buffer-overflow. *)
Definition processed `{Platform} (it : Iteration) : Prop :=
  match recvErr it with
  | None => True
  | Some err => socketError err <> errEOF /\ socketError err <> errENOBUF
  end.

(** The calls a turn of the read loop can make.  The read, the logs and
    the sends on the output channel belong to both modes; the calls of the
    breaker and of the throttle protocol only to streaming; closing the
    channel and the dump request are not the loop's. *)
Definition isLoopAction (dump : bool) (a : action) : bool :=
  match a with
  | CallReceive _ | Log _ _ _ | ChanSend _ => true
  | ChanClose | CallSend _ _ | CallValidate _ _ | CallConnClose _ => false
  | _ => negb dump
  end.

(** A turn in which [Receive] finds the socket closed. *)
Definition eofTurn : Iteration :=
  {| recvMsgs := [];
     recvErr := Some (errorString "read netlink: use of closed file");
     answers := allFine |}.

(** A turn in which [Receive] fails with an error that is neither the
    closing of the socket nor an overflow, next to one message read. *)
Definition interruptedTurn : Iteration :=
  {| recvMsgs := [message ctNew [x01; x02]];
     recvErr := Some (errorString "recvmsg: interrupted system call");
     answers := allFine |}.

(** A turn in which [Receive] reports that the kernel ran out of buffer
    space. *)
Definition overflowTurn : Iteration :=
  {| recvMsgs := [];
     recvErr := Some (errorString "recvmsg: no buffer space available");
     answers := allFine |}.

(** A consumer right after [NewConsumer], on the counting breaker. *)
Definition freshWorld : World countingBreaker :=
  world (@NewConsumer _ countingBreakerOps allFine).

(** A batch with a done marker that is not its last message. *)
Definition doneFirstTurn : Iteration :=
  {| recvMsgs := [message netlink.Done []; message ctNew [x01; x02]];
     recvErr := None;
     answers := allFine |}.

(** A batch whose second message is an error message with code -105. *)
Definition badTurn : Iteration :=
  {| recvMsgs := [message ctNew [x01; x02];
                  message netlink.Error [x97; xff; xff; xff];
                  message ctNew [x03]];
     recvErr := None;
     answers := allFine |}.

Definition notDone (m : netlink.Message) : bool := negb (isDone m).

(** A batch of one message. *)
Definition plainTurn : Iteration :=
  {| recvMsgs := [message ctNew [x01; x02]];
     recvErr := None;
     answers := allFine |}.

(** The last batch of a table dump: a message and the done marker. *)
Definition doneLastTurn : Iteration :=
  {| recvMsgs := [message ctNew [x03; x04]; message netlink.Done []];
     recvErr := None;
     answers := allFine |}.

(** A consumer whose sampling rate is 0.25, so that the next rate is 0.2. *)
Definition lowRateWorld : World countingBreaker :=
  {| consumer := set_samplingRate 0.25%float (consumer freshWorld);
     sockets := sockets freshWorld |}.

(** ** Counting calls in a trace *)

Definition filterCalls (t : list action) : nat :=
  List.length (filter (fun a => match a with CallSetBPF _ _ => true | _ => false end) t).

Definition groupCalls (t : list action) : nat :=
  List.length (filter (fun a => match a with
                                | CallJoinGroup _ _ | CallLeaveGroup _ _ => true
                                | _ => false
                                end) t).

Definition receiveCalls (t : list action) : nat :=
  List.length (filter (fun a => match a with CallReceive _ => true | _ => false end) t).

(** The sampling rate after [k] throttles that succeeded. *)
Fixpoint rateAt (k : nat) : float :=
  match k with
  | O => 1.0%float
  | S k' => (rateAt k' * throttlingFactor)%float
  end.

(** [Subseq l1 l2]: the elements of [l1] occur in [l2], in the same order. *)
Inductive Subseq {A : Type} : list A -> list A -> Prop :=
| Subseq_nil : forall l, Subseq [] l
| Subseq_take : forall x l1 l2, Subseq l1 l2 -> Subseq (x :: l1) (x :: l2)
| Subseq_skip : forall x l1 l2, Subseq l1 l2 -> Subseq l1 (x :: l2).

(** A turn whose read succeeded and whose messages all pass the check. *)
Definition clean `{Platform} (it : Iteration) : Prop :=
  recvErr it = None /\ checkMessages (recvMsgs it) = None.

(** The calls of a turn that leave the socket alone: the read, the
    breaker, the logs and the send. *)
Definition isQuiet (a : action) : bool :=
  match a with
  | CallReceive _ | CallTick _ | CallIsOpen | Log _ _ _ | ChanSend _ => true
  | _ => false
  end.

(** Two worlds with the same socket, connection, sampling rate and number of
    sockets made. *)
Definition sameLink {B : Type} (w w' : World B) : Prop :=
  conn (consumer w') = conn (consumer w) /\
  socket (consumer w') = socket (consumer w) /\
  samplingRate (consumer w') = samplingRate (consumer w) /\
  sockets w' = sockets w.

(** ** The pool and its users *)

(** What is done to a pool: a read takes a buffer ([Get]), the reader of an
    Event gives its buffer back ([Done]), the loop forgets which buffer is in
    use ([Reset]), and [sync.Pool] may at any time let go of a free buffer,
    here the one at position [n] of the free list. *)
Inductive poolOp : Type :=
| OpGet
| OpDone (b : bufptr)
| OpReset
| OpDrop (n : nat).

Definition dropNth (n : nat) (l : list bufptr) : list bufptr :=
  firstn n l ++ skipn (S n) l.

(** A pool together with the buffers that are lent and not yet given back. *)
Record lending : Type := {
  lentPool : bufferPool;
  lent : list bufptr
}.

Definition lend (op : poolOp) (s : lending) : lending :=
  match op with
  | OpGet =>
      {| lentPool := snd (bufferPool_Get (lentPool s));
         lent := fst (bufferPool_Get (lentPool s)) :: lent s |}
  | OpDone b =>
      {| lentPool := Done {| msgs := []; buffer := Some b |} (lentPool s);
         lent := remove Nat.eq_dec b (lent s) |}
  | OpReset =>
      {| lentPool := bufferPool_Reset (lentPool s); lent := lent s |}
  | OpDrop n =>
      {| lentPool :=
           {| inUse := inUse (lentPool s);
              Pool := {| free := dropNth n (free (Pool (lentPool s)));
                         made := made (Pool (lentPool s)) |} |};
         lent := lent s |}
  end.

Definition lendAll (ops : list poolOp) (s : lending) : lending :=
  fold_left (fun s op => lend op s) ops s.

(** The operations give back only buffers that are lent at that time: no
    Event is released twice and none is made up. *)
Fixpoint wellUsed (ops : list poolOp) (s : lending) : Prop :=
  match ops with
  | [] => True
  | op :: rest =>
      match op with
      | OpDone b => In b (lent s)
      | _ => True
      end /\ wellUsed rest (lend op s)
  end.

Definition newLending : lending := {| lentPool := newBufferPool; lent := [] |}.

(** No buffer is lent twice or both lent and free, and every buffer was
    made by the pool. *)
Definition poolSound (s : lending) : Prop :=
  NoDup (lent s) /\
  NoDup (free (Pool (lentPool s))) /\
  (forall b, In b (lent s) -> ~ In b (free (Pool (lentPool s)))) /\
  (forall b, In b (lent s) \/ In b (free (Pool (lentPool s))) ->
             (b < made (Pool (lentPool s)))%nat).

(** ** The order of the socket calls *)

(** The socket or connection an action is a call on, for the calls that
    need an open socket. *)
Definition calledOn (a : action) : option (option sockid) :=
  match a with
  | CallReceive s | CallSetBPF s _ => Some s
  | CallJoinGroup c _ | CallLeaveGroup c _ | CallSetBufferSize c
  | CallGetBufferSize c | CallSend c _ => Some c
  | _ => None
  end.

(** The one socket slot of a consumer as a trace shows it: no socket;
    [NewSocket] was called and no call on its socket was seen yet, so the
    trace does not tell whether a socket was made; or socket [s] is open. *)
Inductive slot : Type :=
| NoSocket
| Asked
| Open (s : sockid).

Definition notClosed (closed : list sockid) (s : sockid) : bool :=
  negb (existsb (Nat.eqb s) closed).

(** A call on [s] with the slot [sl]: it is in order when [s] is the open
    socket, or when a socket was asked for and [s] is a socket that was not
    closed before, which is then the open one.  A call on nil, on another
    socket or with no socket is out of order. *)
Definition useSocket (closed : list sockid) (sl : slot) (s : option sockid)
  : option slot :=
  match sl, s with
  | Open i, Some j => if Nat.eqb i j then Some (Open i) else None
  | Asked, Some j => if notClosed closed j then Some (Open j) else None
  | _, _ => None
  end.

(** [socketOrder closed sl t] plays the trace [t] against the slot [sl],
    [closed] being the sockets closed so far.  [NewSocket] needs an empty
    slot; closing needs the open socket, empties the slot and adds the socket
    to the closed ones; every other call on a socket must be in order.  The
    result is the closed sockets and the slot after the trace, or [None] when
    a call came out of order. *)
Fixpoint socketOrder (closed : list sockid) (sl : slot) (t : list action)
  : option (list sockid * slot) :=
  match t with
  | [] => Some (closed, sl)
  | a :: t' =>
      match a with
      | CallNewSocket =>
          match sl with
          | NoSocket => socketOrder closed Asked t'
          | _ => None
          end
      | CallSocketClose s | CallConnClose s =>
          match useSocket closed sl s with
          | Some (Open i) => socketOrder (i :: closed) NoSocket t'
          | _ => None
          end
      | _ =>
          match calledOn a with
          | Some s =>
              match useSocket closed sl s with
              | Some sl' => socketOrder closed sl' t'
              | None => None
              end
          | None => socketOrder closed sl t'
          end
      end
  end.

(** The actions that are no call on a socket. *)
Definition isSilent (a : action) : bool :=
  match a with
  | CallTick _ | CallIsOpen | CallReset | CallValidate _ _
  | ChanSend _ | ChanClose | Log _ _ _ => true
  | _ => false
  end.

(** The actions that are silent or a call on the socket [i]. *)
Definition isOn (i : sockid) (a : action) : bool :=
  isSilent a ||
  match calledOn a with
  | Some (Some j) => Nat.eqb i j
  | _ => false
  end.

(** The consumer holds socket [i] and its connection, [i] was made by this
    consumer and is not among the closed sockets, which were made by it
    too. *)
Definition linked {B : Type} (w : World B) (i : sockid) (closed : list sockid)
  : Prop :=
  socket (consumer w) = Some i /\
  conn (consumer w) = Some i /\
  (i < sockets w)%nat /\
  Forall (fun j => (j < sockets w)%nat) closed /\
  ~ In i closed.

(** ** The multicast group *)

(** [joined now t]: the connection on which the consumer is a member of the
    multicast group after the trace [t], if any, [now] being the one before
    it.  Joining makes it a member on that connection; leaving the group,
    closing the socket and making a new socket end the membership. *)
Fixpoint joined (now : option (option sockid)) (t : list action)
  : option (option sockid) :=
  match t with
  | [] => now
  | a :: t' =>
      match a with
      | CallJoinGroup c _ => joined (Some c) t'
      | CallLeaveGroup _ _ | CallSocketClose _ | CallNewSocket => joined None t'
      | _ => joined now t'
      end
  end.

(** How many times the pool holds the buffer [b] as a free buffer. *)
Definition held (b : bufptr) (p : bufferPool) : nat :=
  count_occ Nat.eq_dec (free (Pool p)) b.

(** * Properties *)

(** ** checkMessage *)

Section CheckMessage.

Context `{Platform}.

Lemma Uint32_Some (d : list byte) :
  List.length d = 4%nat -> exists u, nlenc.Uint32 d = Some u.
Proof.
  destruct d as [|b0 [|b1 [|b2 [|b3 [|b4 r]]]]]; simpl; try discriminate.
  intros _. eexists. reflexivity.
Qed.

Lemma Uint32_length (d : list byte) (u : Z) :
  nlenc.Uint32 d = Some u -> List.length d = 4%nat.
Proof.
  destruct d as [|b0 [|b1 [|b2 [|b3 [|b4 r]]]]]; simpl; try discriminate.
  reflexivity.
Qed.

Lemma Int32_slice (d : list byte) :
  (4 <= List.length d)%nat -> exists c, nlenc.Int32 (firstn 4 d) = Some c.
Proof.
  intros Hlen. unfold nlenc.Int32.
  destruct (Uint32_Some (firstn 4 d)) as [u Hu].
  - rewrite length_firstn. lia.
  - rewrite Hu. eexists. reflexivity.
Qed.

Lemma Int32_length (d : list byte) (c : Z) :
  nlenc.Int32 (firstn 4 d) = Some c -> (4 <= List.length d)%nat.
Proof.
  unfold nlenc.Int32. destruct (nlenc.Uint32 (firstn 4 d)) as [u|] eqn:Hu;
    try discriminate.
  intros _. apply Uint32_length in Hu. rewrite length_firstn in Hu. lia.
Qed.

Lemma uintptr_errno (c : Z) :
  - 2 ^ 31 <= c < 0 -> uintptr (-1 * c) = - c.
Proof.
  intros Hc. unfold uintptr. rewrite Z.mod_small; lia.
Qed.

(** C9. [checkMessage m] returns an error exactly when the header type of
    [m] is [netlink.Error] and either the payload has fewer than 4 bytes,
    and then the error is [errShortErrorMessage], or its first 4 bytes
    decode to a code other than 0, and then the error is the system error
    number made from the negated code.  A message of any other type, and an
    error message whose code is 0, give nil. *)
Theorem checkMessage_spec (m : netlink.Message) :
  let type := netlink.Type_ (netlink.Hdr m) in
  let data := netlink.Data m in
  (checkMessage m <> None <->
     type = netlink.Error /\
     ((List.length data < 4)%nat \/
      exists c, nlenc.Int32 (firstn 4 data) = Some c /\ c <> 0)) /\
  (type = netlink.Error -> (List.length data < 4)%nat ->
     checkMessage m = Some errShortErrorMessage) /\
  (type = netlink.Error ->
     forall c, nlenc.Int32 (firstn 4 data) = Some c -> c <> 0 ->
     checkMessage m = Some (Errno (uintptr (-1 * c))) /\
     (- 2 ^ 31 <= c < 0 -> checkMessage m = Some (Errno (- c)))) /\
  (type <> netlink.Error -> checkMessage m = None) /\
  (type = netlink.Error -> nlenc.Int32 (firstn 4 data) = Some 0 ->
     checkMessage m = None).
Proof.
  intros type data. unfold checkMessage. fold type data.
  destruct (Z.eqb_spec type netlink.Error) as [Ht|Ht]; cbn [negb].
  - destruct (Z.ltb_spec (Z.of_nat (List.length data)) 4) as [Hl|Hl].
    + split; [|split; [|split; [|split]]].
      * split; [intros _; split; [assumption|left; lia]|discriminate].
      * reflexivity.
      * intros _ c Hc. apply Int32_length in Hc. lia.
      * congruence.
      * intros _ Hc. apply Int32_length in Hc. lia.
    + destruct (Int32_slice data) as [c Hc]; [lia|]. rewrite Hc.
      unfold success.
      destruct (Z.eqb_spec c 0) as [Hz|Hz]; cbn [negb].
      * split; [|split; [|split; [|split]]].
        -- split; [congruence|].
           intros [_ [Hlt|[c' [Hc' Hnz]]]]; [lia|congruence].
        -- lia.
        -- intros _ c' Hc' Hnz. congruence.
        -- congruence.
        -- reflexivity.
      * split; [|split; [|split; [|split]]].
        -- split; [|discriminate].
           intros _. split; [assumption|]. right. now exists c.
        -- lia.
        -- intros _ c' Hc' Hnz. replace c' with c by congruence.
           split; [reflexivity|]. intros Hneg. now rewrite uintptr_errno.
        -- congruence.
        -- congruence.
  - split; [|split; [|split; [|split]]]; try congruence.
    split; [congruence|]. intros [Habs _]. contradiction.
Qed.

End CheckMessage.

(** ** The buffer pool and Done *)

Section Pool.

Lemma Done_nil (e : Event) (p : bufferPool) :
  buffer e = None -> Done e p = p.
Proof. unfold Done. intros ->. reflexivity. Qed.

Lemma Done_lent (e : Event) (p : bufferPool) (buf : bufptr) :
  buffer e = Some buf ->
  Done e p = {| inUse := inUse p;
                Pool := {| free := buf :: free (Pool p); made := made (Pool p) |} |}.
Proof. unfold Done. intros ->. reflexivity. Qed.

Lemma list_neq_cons {A : Type} (x : A) (l : list A) : x :: l <> l.
Proof.
  intros Heq. apply (f_equal (@List.length A)) in Heq. simpl in Heq. lia.
Qed.

(** C3, as the code has it.  [Done] puts the buffer of the [Event] into the
    pool at every call: a second [Done] is not a no-op, after it the pool
    holds the buffer one more time than after the first, so the buffer is
    counted as available twice and the pool differs from the pool after one
    [Done]; no other buffer is touched.  [Done] leaves the pool as it is only
    for an [Event] without a buffer. *)
Theorem Done_Done (e : Event) (p : bufferPool) :
  match buffer e with
  | Some buf =>
      let p1 := Done e p in
      let p2 := Done e p1 in
      held buf p1 = S (held buf p) /\
      held buf p2 = S (held buf p1) /\
      (forall b, b <> buf -> held b p2 = held b p) /\
      made (Pool p2) = made (Pool p) /\
      inUse p2 = inUse p /\
      p2 <> p1
  | None => Done e (Done e p) = p
  end.
Proof.
  destruct (buffer e) as [buf|] eqn:Hb.
  - cbv zeta. unfold Done. rewrite Hb. unfold held, bufferPool_Put, syncPool_Put.
    cbn [Pool free made inUse].
    assert (Hone : forall l, count_occ Nat.eq_dec (buf :: l) buf
                             = S (count_occ Nat.eq_dec l buf))
      by (intros l; now apply count_occ_cons_eq).
    split; [apply Hone|]. split; [apply Hone|].
    split; [|split; [reflexivity|split; [reflexivity|]]].
    + intros b Hne. rewrite !count_occ_cons_neq by congruence. reflexivity.
    + intros Heq. injection Heq as Heq. now apply list_neq_cons in Heq.
  - now rewrite !Done_nil.
Qed.

(** C3, as the claim has it, fails: a buffer is lent by [Get], the [Event]
    made for it is released twice, and the pool after the second [Done] is
    not the pool after the first: the buffer is on the free list twice. *)
Lemma Done_Done_not_idempotent :
  let p := snd (bufferPool_Get newBufferPool) in
  let e := {| msgs := []; buffer := inUse p |} in
  buffer e = Some 0%nat /\
  free (Pool (Done e p)) = [0%nat] /\
  free (Pool (Done e (Done e p))) = [0%nat; 0%nat] /\
  Done e (Done e p) <> Done e p.
Proof.
  cbn. repeat split. discriminate.
Qed.

End Pool.

(** ** Socket creation and the throttle protocol *)

Section Throttle.

Context `{Platform} {B : Type} `{CircuitBreaker B}.

Lemma initNetlinkSocket_underflow (a : Answers) (rate : float) (w : World B) :
  (rate <=? minSamplingThreshold)%float = true ->
  initNetlinkSocket a rate w = (Some errMaxSamplingAttempts, w, []).
Proof. unfold initNetlinkSocket. intros ->. reflexivity. Qed.

(** C1. A consumer starts at sampling rate 1.0.  With socket creation and
    filter installation succeeding, seven throttles in a row succeed, each
    building one socket.  The eight rates visited are the binary64 numbers
    listed, which are 1.0, 0.8, 0.64, 0.512, 0.4096, 0.32768, 0.262144 and
    0.2097152 up to the rounding of binary64 (less than 1e-15), and all are
    above the threshold.  The eighth throttle computes 0.8^8 = 0.16777216 (up
    to the same rounding), which is at most 0.2: it returns
    [errMaxSamplingAttempts], builds no socket and leaves the rate as it
    was. *)
Theorem throttle_rate_sequence (a : Answers) :
  ansNewSocket a = None ->
  ansSetBPF a = None ->
  let start := NewConsumer a in
  let run := throttleRun a 8 (world start) in
  let visited :=
    samplingRate (consumer (world start)) :: map rateAfter (firstn 7 run) in
  let candidate := (last visited 0 * throttlingFactor)%float in
  result start = None /\
  hd 0%float visited = 1.0%float /\
  map returned run =
    [None; None; None; None; None; None; None; Some errMaxSamplingAttempts] /\
  map built run = [1; 1; 1; 1; 1; 1; 1; 0]%nat /\
  visited =
    [1.0; 0.80000000000000004; 0.64000000000000012; 0.51200000000000012;
     0.40960000000000013; 0.32768000000000014; 0.2621440000000001;
     0.2097152000000001]%float /\
  candidate = 0.16777216000000009%float /\
  List.length visited = 8%nat /\
  allClose visited listedRates = true /\
  forallb (fun r => negb (r <=? minSamplingThreshold)%float) visited = true /\
  closeTo candidate (16777216 # 100000000) = true /\
  (candidate <=? minSamplingThreshold)%float = true /\
  map rateAfter (skipn 7 run) = [last visited 0%float].
Proof.
  destruct a as [leave new size [sz szErr] bpf]. cbn [ansNewSocket ansSetBPF].
  intros -> ->.
  destruct leave, size, szErr; vm_compute; repeat split.
Qed.

Ltac run_init :=
  unfold initNetlinkSocket, NewSocket, setSocketBufferSize,
    getSocketBufferSize, SetBPF, whenErr, logf, call, modify, getc, bind, ret.

(** [initNetlinkSocket] only makes build calls and never touches the
    breaker. *)
Lemma initNetlinkSocket_calls (a : Answers) (rate : float) (w : World B) :
  forallb isBuildAction (trace (initNetlinkSocket a rate w)) = true /\
  breaker (consumer (world (initNetlinkSocket a rate w))) = breaker (consumer w).
Proof.
  run_init.
  destruct (rate <=? minSamplingThreshold)%float; [split; reflexivity|].
  destruct (ansNewSocket a); [split; reflexivity|].
  destruct (ansSetBufferSize a), (ansGetBufferSize a) as [sz [szErr|]];
    cbn; destruct (1 <=? rate)%float; cbn;
    try (split; reflexivity);
    destruct (ansSetBPF a); split; reflexivity.
Qed.

(** What [throttle] returns, in terms of the build it attempts. *)
Lemma throttle_run (a : Answers) (w : World B) :
  let c := consumer w in
  let build := initNetlinkSocket a (samplingRate c * throttlingFactor)%float w in
  let leave :=
    CallLeaveGroup (conn c) netlinkCtNew ::
    match ansLeaveGroup a with
    | Some e => [Log Errorf_ "netlink: error leaving group: %s" [argError e]]
    | None => []
    end in
  throttle a w =
  match result build with
  | None =>
      (None,
       {| consumer := set_breaker (Reset (breaker (consumer (world build))))
                        (consumer (world build));
          sockets := sockets (world build) |},
       leave ++ CallSocketClose (socket c) :: trace build ++
       [CallReset; CallJoinGroup (conn (consumer (world build))) netlinkCtNew])
  | Some e =>
      (Some e, world build,
       leave ++ CallSocketClose (socket c) :: trace build ++
       [Log Errorf_ "failed to re-create netlink socket. exiting conntrack: %s"
            [argError e]])
  end.
Proof.
  intros c build leave.
  subst leave c. unfold throttle, LeaveGroup, socket_Close, whenErr, logf,
    breaker_Reset, JoinGroup, call, modify, getc, bind, ret.
  unfold result, world, trace.
  destruct (ansLeaveGroup a); cbn -[initNetlinkSocket];
    change (initNetlinkSocket a (samplingRate (consumer w) * throttlingFactor)%float w)
      with build;
    clearbody build; destruct build as [[[err|] w1] t1];
    cbn; rewrite ?app_nil_r; reflexivity.
Qed.

(** C8. [throttle] leaves the multicast group, closes the current socket,
    and then tries to build a socket at the current rate times 0.8; what it
    returns is what the build returns.  When the build succeeds, the
    breaker is reset, the group is joined again on the new connection, and
    nil is returned.  When the build fails, the error is logged and
    returned, and neither the reset nor the join takes place; this is so in
    particular when the new rate is at or below 0.2, where the error is
    [errMaxSamplingAttempts] and no socket is built. *)
Theorem throttle_protocol (a : Answers) (w : World B) :
  let c := consumer w in
  let r := throttle a w in
  let build := initNetlinkSocket a (samplingRate c * throttlingFactor)%float w in
  let leave :=
    CallLeaveGroup (conn c) netlinkCtNew ::
    match ansLeaveGroup a with
    | Some e => [Log Errorf_ "netlink: error leaving group: %s" [argError e]]
    | None => []
    end in
  result r = result build /\
  forallb isBuildAction (trace build) = true /\
  match result build with
  | None =>
      trace r =
        leave ++ CallSocketClose (socket c) :: trace build ++
        [CallReset; CallJoinGroup (conn (consumer (world build))) netlinkCtNew] /\
      consumer (world r) =
        set_breaker (Reset (breaker c)) (consumer (world build)) /\
      sockets (world r) = sockets (world build)
  | Some e =>
      trace r =
        leave ++ CallSocketClose (socket c) :: trace build ++
        [Log Errorf_ "failed to re-create netlink socket. exiting conntrack: %s"
             [argError e]] /\
      world r = world build /\
      breaker (consumer (world r)) = breaker c /\
      forallb (fun x => match x with
                        | CallReset | CallJoinGroup _ _ => false
                        | _ => true
                        end) (trace r) = true
  end /\
  ((samplingRate c * throttlingFactor <=? minSamplingThreshold)%float = true ->
   result r = Some errMaxSamplingAttempts /\
   socketsBuilt (trace r) = 0%nat /\
   world r = w).
Proof.
  intros c r build leave.
  destruct (initNetlinkSocket_calls a (samplingRate c * throttlingFactor)%float w)
    as [Hcalls Hbreaker].
  fold build in Hcalls, Hbreaker.
  assert (Hr : r = _) by (exact (throttle_run a w)). cbv zeta in Hr. fold c build leave in Hr.
  rewrite Hr. clear Hr.
  split; [destruct (result build); reflexivity|].
  split; [assumption|].
  split.
  - destruct (result build) eqn:Hres; cbn.
    + repeat split; [assumption|].
      rewrite !forallb_app. cbn [forallb].
      rewrite forallb_app. cbn [forallb]. rewrite !andb_true_r.
      apply andb_true_intro. split.
      * unfold leave. destruct (ansLeaveGroup a); reflexivity.
      * eapply forallb_forall. intros x Hx.
        pose proof (proj1 (forallb_forall _ _) Hcalls x Hx) as Hbx.
        destruct x; try discriminate; reflexivity.
    + rewrite Hbreaker. repeat split.
  - intros Hlow. subst build.
    rewrite (initNetlinkSocket_underflow a _ w Hlow). cbn.
    repeat split.
    unfold socketsBuilt, leave. destruct (ansLeaveGroup a); reflexivity.
Qed.

End Throttle.

(** C1 with the counting breaker and every call answered without an error. *)
Lemma throttle_rate_sequence_witness :
  map returned
      (@throttleRun _ countingBreakerOps allFine 8
         (world (@NewConsumer _ countingBreakerOps allFine))) =
  [None; None; None; None; None; None; None; Some errMaxSamplingAttempts].
Proof.
  exact (proj1 (proj2 (proj2
    (@throttle_rate_sequence _ countingBreakerOps allFine
       eq_refl eq_refl)))).
Defined.

(** ** The receive loop *)

Section ReadLoop.

Context `{Platform} {B : Type} `{CircuitBreaker B}.

Lemma result_mk {A : Type} (a : A) (w : World B) (t : list action) :
  result (a, w, t) = a.
Proof. reflexivity. Qed.

Lemma world_mk {A : Type} (a : A) (w : World B) (t : list action) :
  world (a, w, t) = w.
Proof. reflexivity. Qed.

Lemma trace_mk {A : Type} (a : A) (w : World B) (t : list action) :
  trace (a, w, t) = t.
Proof. reflexivity. Qed.

Lemma bind_run {A C : Type} (m : M B A) (k : A -> M B C) (w : World B) :
  bind m k w =
  (result (k (result (m w)) (world (m w))),
   world (k (result (m w)) (world (m w))),
   trace (m w) ++ trace (k (result (m w)) (world (m w)))).
Proof.
  unfold bind. destruct (m w) as [[a w1] t1]. cbn.
  destruct (k a w1) as [[c w2] t2]. reflexivity.
Qed.

(** The world once [Receive] has returned: the pool was reset and a
    buffer taken from it. *)
Lemma read_run (it : Iteration) (w : World B) :
  (pool_Reset ;; socket_Receive it) w =
  (recvMsgs it, recvErr it,
   {| consumer :=
        set_pool (snd (bufferPool_Get (bufferPool_Reset (pool (consumer w)))))
                 (consumer w);
      sockets := sockets w |},
   [CallReceive (socket (consumer w))]).
Proof. reflexivity. Qed.

Lemma throttleAndContinue_run (a : Answers) (w : World B) :
  throttleAndContinue a w =
  (afterThrottle (result (throttle a w)), world (throttle a w),
   trace (throttle a w)).
Proof.
  unfold throttleAndContinue. rewrite bind_run. unfold ret. cbn.
  now rewrite app_nil_r.
Qed.

Lemma deliver_run (dump : bool) (ms : list netlink.Message) (w : World B) :
  deliver dump ms w =
  match checkMessages ms with
  | Some e => (Continue, w, [Log Debugf "netlink message error: %s" [argError e]])
  | None =>
      (if dump && lastIsDone ms then Return else Continue, w,
       [ChanSend {| msgs := strip ms; buffer := inUse (pool (consumer w)) |}])
  end.
Proof.
  unfold deliver, strip. destruct (checkMessages ms); [reflexivity|].
  destruct (dump && lastIsDone ms); reflexivity.
Qed.

Lemma process_run (dump : bool) (a : Answers) (ms : list netlink.Message)
      (w : World B) :
  process dump a ms w =
  if dump then deliver dump ms w
  else
    let n := Z.of_nat (List.length ms) in
    let w1 := {| consumer := set_breaker (Tick (breaker (consumer w)) n) (consumer w);
                 sockets := sockets w |} in
    let r := if IsOpen (Tick (breaker (consumer w)) n)
             then throttleAndContinue a w1 else deliver dump ms w1 in
    (result r, world r, CallTick n :: CallIsOpen :: trace r).
Proof.
  unfold process. destruct dump; cbn [negb]; [reflexivity|].
  rewrite bind_run, bind_run. cbn.
  now destruct (IsOpen _).
Qed.

Lemma readLoop_run (dump : bool) (it : Iteration) (w : World B) :
  let rd := (pool_Reset ;; socket_Receive it) w in
  let k : M B control :=
    match recvErr it with
    | Some err =>
        match socketError err with
        | errEOF => ret Return
        | errENOBUF =>
            if dump then
              logf Warnf "netlink: detected enobuf during conntrack table dump. consider raising rcvbuf capacity." [] ;;
              ret Return
            else
              logf Warnf "netlink: detected enobuf during streaming. will re-create socket with a lower sampling rate." [] ;;
              throttleAndContinue (answers it)
        | _ => process dump (answers it) (recvMsgs it)
        end
    | None => process dump (answers it) (recvMsgs it)
    end in
  readLoop dump it w =
  (result (k (world rd)), world (k (world rd)), trace rd ++ trace (k (world rd))).
Proof.
  intros rd k. unfold readLoop.
  rewrite bind_run, bind_run. subst rd k. rewrite read_run.
  cbn [result world trace fst snd app]. reflexivity.
Qed.

Lemma receive_cons (dump : bool) (it : Iteration) (rest : list Iteration)
      (w : World B) :
  receive dump (it :: rest) w =
  let turn := readLoop dump it w in
  match result turn with
  | Continue =>
      let r := receive dump rest (world turn) in
      (result r, world r, trace turn ++ trace r)
  | Return => (Returned, world turn, trace turn)
  end.
Proof.
  cbn [receive]. rewrite bind_run. cbn zeta.
  destruct (result (readLoop dump it w)); [reflexivity|].
  cbn. now rewrite app_nil_r.
Qed.

(** *** What a trace can hold *)

Lemma emitted_app (t1 t2 : list action) :
  emitted (t1 ++ t2) = emitted t1 ++ emitted t2.
Proof. unfold emitted. apply flat_map_app. Qed.

Lemma closes_app (t1 t2 : list action) :
  closes (t1 ++ t2) = (closes t1 + closes t2)%nat.
Proof. unfold closes. now rewrite filter_app, length_app. Qed.

Lemma breakerCalls_app (t1 t2 : list action) :
  breakerCalls (t1 ++ t2) = (breakerCalls t1 + breakerCalls t2)%nat.
Proof. unfold breakerCalls. now rewrite filter_app, length_app. Qed.

Lemma build_is_loop (t : list action) :
  forallb isBuildAction t = true -> forallb (isLoopAction false) t = true.
Proof.
  induction t as [|a t IH]; [reflexivity|]. cbn [forallb].
  intros Hb. apply andb_prop in Hb as [Ha Ht].
  rewrite (IH Ht), andb_true_r. destruct a; try discriminate; reflexivity.
Qed.

Lemma build_emits_nothing (t : list action) :
  forallb isBuildAction t = true -> emitted t = [].
Proof.
  induction t as [|a t IH]; [reflexivity|]. cbn [forallb].
  intros Hb. apply andb_prop in Hb as [Ha Ht].
  destruct a; try discriminate; cbn; now apply IH.
Qed.

Lemma loop_never_closes (dump : bool) (t : list action) :
  forallb (isLoopAction dump) t = true -> closes t = 0%nat.
Proof.
  induction t as [|a t IH]; [reflexivity|]. cbn [forallb].
  intros Hb. apply andb_prop in Hb as [Ha Ht].
  change (a :: t) with ([a] ++ t). rewrite closes_app, (IH Ht).
  destruct a; try discriminate; reflexivity.
Qed.

Lemma dump_never_asks_breaker (t : list action) :
  forallb (isLoopAction true) t = true -> breakerCalls t = 0%nat.
Proof.
  induction t as [|a t IH]; [reflexivity|]. cbn [forallb].
  intros Hb. apply andb_prop in Hb as [Ha Ht].
  change (a :: t) with ([a] ++ t). rewrite breakerCalls_app, (IH Ht).
  destruct a; try discriminate; reflexivity.
Qed.

Lemma throttle_actions (a : Answers) (w : World B) :
  forallb (isLoopAction false) (trace (throttle a w)) = true /\
  emitted (trace (throttle a w)) = [].
Proof.
  pose proof (throttle_run a w) as Hrun. cbv zeta in Hrun. rewrite Hrun.
  destruct (initNetlinkSocket_calls a
              (samplingRate (consumer w) * throttlingFactor)%float w) as [Hb _].
  pose proof (build_is_loop _ Hb) as Hl.
  pose proof (build_emits_nothing _ Hb) as He.
  destruct (result (initNetlinkSocket a _ w)); unfold trace at 1 3; cbn [snd];
    destruct (ansLeaveGroup a); cbn [app forallb isLoopAction negb andb];
    rewrite ?forallb_app, ?Hl;
    (split; [reflexivity|]);
    repeat (rewrite emitted_app || (change (emitted (?x :: ?t)) with (emitted t)));
    cbn; rewrite ?emitted_app, ?He; reflexivity.
Qed.

Lemma deliver_actions (dump : bool) (ms : list netlink.Message) (w : World B) :
  forallb (isLoopAction dump) (trace (deliver dump ms w)) = true /\
  world (deliver dump ms w) = w.
Proof.
  rewrite deliver_run. destruct (checkMessages ms); split; reflexivity.
Qed.

Lemma readLoop_actions (dump : bool) (it : Iteration) (w : World B) :
  forallb (isLoopAction dump) (trace (readLoop dump it w)) = true.
Proof.
  pose proof (readLoop_run dump it w) as Hrun. cbv zeta in Hrun. rewrite Hrun.
  rewrite read_run. unfold trace at 1. cbn [snd]. unfold trace at 1. cbn [snd app].
  set (w1 := world _).
  assert (Hp : forallb (isLoopAction dump)
                 (trace (process dump (answers it) (recvMsgs it) w1)) = true).
  { rewrite process_run. destruct dump.
    - apply deliver_actions.
    - cbv zeta. unfold trace at 1. cbn [snd forallb isLoopAction negb andb].
      destruct (IsOpen _).
      + rewrite throttleAndContinue_run. apply throttle_actions.
      + apply deliver_actions. }
  cbn [forallb isLoopAction andb].
  destruct (recvErr it) as [err|]; [|exact Hp].
  destruct (socketError err); try exact Hp; [reflexivity|].
  destruct dump; [reflexivity|].
  rewrite bind_run. unfold logf, call, trace at 1. cbn [snd app forallb isLoopAction andb].
  rewrite throttleAndContinue_run. apply throttle_actions.
Qed.

Lemma receive_actions (dump : bool) (script : list Iteration) (w : World B) :
  forallb (isLoopAction dump) (trace (receive dump script w)) = true.
Proof.
  revert w. induction script as [|it rest IH]; intros w; [reflexivity|].
  rewrite receive_cons. cbv zeta.
  pose proof (readLoop_actions dump it w) as Hturn.
  destruct (result (readLoop dump it w)).
  - unfold trace at 1. cbn [snd]. now rewrite forallb_app, Hturn, IH.
  - exact Hturn.
Qed.

(** *** The error of Receive *)

Lemma readLoop_processed (dump : bool) (it : Iteration) (w : World B) :
  processed it ->
  let rd := (pool_Reset ;; socket_Receive it) w in
  let r := process dump (answers it) (recvMsgs it) (world rd) in
  readLoop dump it w = (result r, world r, trace rd ++ trace r).
Proof.
  intros Hp. cbv zeta.
  pose proof (readLoop_run dump it w) as Hrun. cbv zeta in Hrun. rewrite Hrun.
  unfold processed in Hp.
  destruct (recvErr it) as [err|]; [|reflexivity].
  destruct Hp as [Heof Hbuf].
  destruct (socketError err) eqn:Hk; try congruence; reflexivity.
Qed.

(** C10. When [Receive] returns an error that [socketError] classifies as
    neither end-of-stream nor buffer-overflow, the turn of the loop is the
    turn of a read that returned the same batch without an error: the loop
    does not return at the switch and does not read again, it goes on to
    process the batch.  In streaming mode it feeds the length of the batch to
    the breaker, and when the breaker stays closed (or in dump mode) and the
    messages pass the check, the batch is sent as one Event. *)
Theorem receive_other_error (dump : bool) (it : Iteration)
        (rest : list Iteration) (w : World B) (err : error) :
  recvErr it = Some err ->
  socketError err <> errEOF ->
  socketError err <> errENOBUF ->
  let rd := (pool_Reset ;; socket_Receive it) w in
  let n := Z.of_nat (List.length (recvMsgs it)) in
  readLoop dump it w = readLoop dump (withoutError it) w /\
  receive dump (it :: rest) w = receive dump (withoutError it :: rest) w /\
  readLoop dump it w =
    (pool_Reset ;; socket_Receive it ;;
     process dump (answers it) (recvMsgs it)) w /\
  (exists t, trace (readLoop false it w) =
             CallReceive (socket (consumer w)) :: CallTick n :: CallIsOpen :: t) /\
  ((dump = true \/ IsOpen (Tick (breaker (consumer w)) n) = false) ->
   checkMessages (recvMsgs it) = None ->
   emitted (trace (readLoop dump it w)) =
     [{| msgs := strip (recvMsgs it);
         buffer := inUse (pool (consumer (world rd))) |}]).
Proof.
  intros Herr Heof Hbuf rd n.
  assert (Hp : processed it) by (unfold processed; rewrite Herr; now split).
  assert (Hp' : processed (withoutError it)) by exact I.
  assert (Hsame : forall d, readLoop d it w = readLoop d (withoutError it) w).
  { intros d. rewrite (readLoop_processed d it w Hp).
    rewrite (readLoop_processed d (withoutError it) w Hp'). reflexivity. }
  split; [apply Hsame|].
  split; [rewrite !receive_cons, Hsame; reflexivity|].
  split.
  { rewrite (readLoop_processed dump it w Hp).
    rewrite read_run.
    rewrite (bind_run pool_Reset). cbv beta.
    rewrite (bind_run (socket_Receive it)). reflexivity. }
  split.
  { rewrite (readLoop_processed false it w Hp), process_run. cbv zeta.
    rewrite read_run. eexists. reflexivity. }
  intros Hclosed Hcheck.
  rewrite (readLoop_processed dump it w Hp), process_run. subst rd.
  rewrite read_run, !world_mk, !trace_mk.
  destruct dump.
  - rewrite deliver_run, Hcheck. reflexivity.
  - destruct Hclosed as [Habs|Hclosed]; [discriminate|].
    cbv zeta. cbn [consumer set_pool breaker]. fold n. rewrite Hclosed.
    rewrite deliver_run, Hcheck. reflexivity.
Qed.

(** C5. When [Receive] returns an error classified as buffer-overflow: in
    dump mode the loop logs a warning and returns, and the read and the log
    are all it did, so no throttle took place; in streaming mode it logs a
    warning and runs [throttle], goes on with the next turn when [throttle]
    returns nil, and returns when [throttle] returns an error. *)
Theorem receive_overflow (it : Iteration) (rest : list Iteration)
        (w : World B) (err : error) :
  recvErr it = Some err ->
  socketError err = errENOBUF ->
  let rd := (pool_Reset ;; socket_Receive it) w in
  let th := throttle (answers it) (world rd) in
  let read := CallReceive (socket (consumer w)) in
  let warnDump :=
    Log Warnf "netlink: detected enobuf during conntrack table dump. consider raising rcvbuf capacity." [] in
  let warnStream :=
    Log Warnf "netlink: detected enobuf during streaming. will re-create socket with a lower sampling rate." [] in
  receive true (it :: rest) w = (Returned, world rd, [read; warnDump]) /\
  readLoop false it w =
    (afterThrottle (result th), world th, read :: warnStream :: trace th) /\
  receive false (it :: rest) w =
    match result th with
    | None =>
        let r := receive false rest (world th) in
        (result r, world r, read :: warnStream :: trace th ++ trace r)
    | Some _ => (Returned, world th, read :: warnStream :: trace th)
    end.
Proof.
  intros Herr Hbuf rd th read warnDump warnStream.
  assert (Hdump : readLoop true it w = (Return, world rd, [read; warnDump])).
  { pose proof (readLoop_run true it w) as Hrun. cbv zeta in Hrun.
    rewrite Hrun, Herr, Hbuf. reflexivity. }
  assert (Hstream : readLoop false it w =
            (afterThrottle (result th), world th, read :: warnStream :: trace th)).
  { pose proof (readLoop_run false it w) as Hrun. cbv zeta in Hrun.
    rewrite Hrun, Herr, Hbuf. rewrite bind_run.
    rewrite throttleAndContinue_run. reflexivity. }
  split; [|split].
  - rewrite receive_cons, Hdump. reflexivity.
  - exact Hstream.
  - rewrite receive_cons, Hstream. cbv zeta. unfold result at 1. cbn [fst].
    destruct (result th); reflexivity.
Qed.

(** *** The circuit breaker *)

Lemma DumpTable_run (family : byte) (d : DumpAnswers) (script : list Iteration)
      (w : World B) :
  let req := dumpRequest family in
  let send := CallSend (conn (consumer w)) req in
  let validate := CallValidate req (fst (ansSend d)) in
  DumpTable family d script w =
  match snd (ansSend d) with
  | Some err =>
      (Returned, w,
       [send; Log Errorf_ "netlink dump error: %s" [argError err]; ChanClose])
  | None =>
      match ansValidate d with
      | Some err =>
          (Returned, w,
           [send; validate;
            Log Errorf_ "netlink dump message validation error: %s" [argError err];
            ChanClose])
      | None =>
          let r := receive true script w in
          match result r with
          | Returned => (Returned, world r, send :: validate :: trace r ++ [ChanClose])
          | Running => (Running, world r, send :: validate :: trace r)
          end
      end
  end.
Proof.
  cbv zeta. unfold DumpTable, logf, call, getc, bind, ret.
  destruct (snd (ansSend d)) as [err|]; [reflexivity|].
  destruct (ansValidate d) as [err|]; [reflexivity|].
  unfold result, world, trace.
  destruct (receive true script w) as [[[|] w1] t1]; cbn;
    rewrite ?app_nil_r; reflexivity.
Qed.

(** C7. In streaming mode a turn that has a batch to process feeds the
    length of the batch to the breaker with [Tick] and then asks [IsOpen];
    when the breaker is open it runs [throttle], goes on with the next turn
    when [throttle] returns nil and returns when it returns an error; when
    the breaker is closed the turn goes on to deliver the batch.  In dump mode
    the breaker is not called at all, neither by the loop nor by
    [DumpTable]. *)
Theorem receive_breaker (it : Iteration) (rest : list Iteration) (w : World B) :
  let rd := (pool_Reset ;; socket_Receive it) w in
  let n := Z.of_nat (List.length (recvMsgs it)) in
  let ticked :=
    {| consumer := set_breaker (Tick (breaker (consumer w)) n) (consumer (world rd));
       sockets := sockets w |} in
  let th := throttle (answers it) ticked in
  let pre := [CallReceive (socket (consumer w)); CallTick n; CallIsOpen] in
  (processed it ->
   (exists t, trace (readLoop false it w) = pre ++ t) /\
   (IsOpen (Tick (breaker (consumer w)) n) = true ->
    readLoop false it w =
      (afterThrottle (result th), world th, pre ++ trace th) /\
    receive false (it :: rest) w =
      match result th with
      | None =>
          let r := receive false rest (world th) in
          (result r, world r, pre ++ trace th ++ trace r)
      | Some _ => (Returned, world th, pre ++ trace th)
      end) /\
   (IsOpen (Tick (breaker (consumer w)) n) = false ->
    readLoop false it w =
      let r := deliver false (recvMsgs it) ticked in
      (result r, world r, pre ++ trace r))) /\
  (forall script w', breakerCalls (trace (receive true script w')) = 0%nat) /\
  (forall family d script w',
     breakerCalls (trace (DumpTable family d script w')) = 0%nat).
Proof.
  intros rd n ticked th pre.
  assert (Hdump : forall script w',
             breakerCalls (trace (receive true script w')) = 0%nat).
  { intros script w'. apply dump_never_asks_breaker, receive_actions. }
  split; [|split; [exact Hdump|]].
  - intros Hp.
    assert (Hturn : readLoop false it w =
              let r := if IsOpen (Tick (breaker (consumer w)) n)
                       then throttleAndContinue (answers it) ticked
                       else deliver false (recvMsgs it) ticked in
              (result r, world r, pre ++ trace r)).
    { rewrite (readLoop_processed false it w Hp), process_run.
      subst ticked rd. rewrite read_run, !world_mk, !trace_mk. reflexivity. }
    cbv zeta in Hturn.
    split; [rewrite Hturn; eexists; reflexivity|].
    split.
    + intros Hopen. rewrite Hopen, throttleAndContinue_run in Hturn.
      fold th in Hturn. split; [exact Hturn|].
      rewrite receive_cons, Hturn. cbv zeta. rewrite result_mk, world_mk, trace_mk.
      destruct (result th); cbn [afterThrottle]; [reflexivity|].
      now rewrite <- app_assoc.
    + intros Hclosed. now rewrite Hclosed in Hturn.
  - intros family d script w'.
    pose proof (DumpTable_run family d script w') as Hrun. cbv zeta in Hrun.
    rewrite Hrun.
    destruct (snd (ansSend d)); [reflexivity|].
    destruct (ansValidate d); [reflexivity|].
    pose proof (Hdump script w') as Hz.
    destruct (result (receive true script w')); rewrite trace_mk;
      change (?a :: ?b :: ?t) with ([a; b] ++ t);
      rewrite !breakerCalls_app, Hz; reflexivity.
Qed.

(** *** Closing the output channel *)

Lemma Events_run (script : list Iteration) (w : World B) :
  Events script w =
  let r := receive false script w in
  (result r, world r, CallJoinGroup (conn (consumer w)) netlinkCtNew :: trace r).
Proof.
  unfold Events. rewrite bind_run. reflexivity.
Qed.

Lemma Events_closes (script : list Iteration) (w : World B) :
  closes (trace (Events script w)) = 0%nat.
Proof.
  rewrite Events_run. cbv zeta. rewrite trace_mk.
  change (?a :: ?t) with ([a] ++ t). rewrite closes_app.
  now rewrite (loop_never_closes false _ (receive_actions false script w)).
Qed.

(** [DumpTable] closes the channel exactly once when its closure ends, and
    not before. *)
Lemma DumpTable_closes (family : byte) (d : DumpAnswers)
      (script : list Iteration) (w : World B) :
  closes (trace (DumpTable family d script w)) =
  match result (DumpTable family d script w) with
  | Returned => 1%nat
  | Running => 0%nat
  end.
Proof.
  pose proof (DumpTable_run family d script w) as Hrun. cbv zeta in Hrun.
  rewrite Hrun.
  destruct (snd (ansSend d)); [reflexivity|].
  destruct (ansValidate d); [reflexivity|].
  pose proof (loop_never_closes true _ (receive_actions true script w)) as Hz.
  destruct (result (receive true script w)); rewrite trace_mk, result_mk;
    change (?a :: ?b :: ?t) with ([a; b] ++ t);
    rewrite !closes_app, Hz; reflexivity.
Qed.

(** C2, at the end of a stream.  The closure of [Events] joins the group and
    runs the loop; when [Receive] finds the socket closed the loop returns,
    the closure ends, and the output channel has not been closed: no run of
    [Events] ever closes it.  [DumpTable] does close its channel, once, when
    its closure ends. *)
Theorem Events_leaves_channel_open (w : World B) :
  result (Events [eofTurn] w) = Returned /\
  trace (Events [eofTurn] w) =
    [CallJoinGroup (conn (consumer w)) netlinkCtNew;
     CallReceive (socket (consumer w))] /\
  (forall script, closes (trace (Events script w)) = 0%nat) /\
  (forall family d,
     result (DumpTable family d [eofTurn] w) = Returned /\
     closes (trace (DumpTable family d [eofTurn] w)) = 1%nat).
Proof.
  assert (Hturn : forall dump, readLoop dump eofTurn w =
            (Return, world ((pool_Reset ;; socket_Receive eofTurn) w),
             [CallReceive (socket (consumer w))])).
  { intros dump. pose proof (readLoop_run dump eofTurn w) as Hrun.
    cbv zeta in Hrun. rewrite Hrun. reflexivity. }
  split; [|split; [|split]].
  - rewrite Events_run, receive_cons, Hturn. reflexivity.
  - rewrite Events_run, receive_cons, Hturn. reflexivity.
  - intros script. apply Events_closes.
  - intros family d.
    assert (Hres : result (DumpTable family d [eofTurn] w) = Returned).
    { pose proof (DumpTable_run family d [eofTurn] w) as Hrun.
      cbv zeta in Hrun. rewrite Hrun, receive_cons, Hturn.
      destruct (snd (ansSend d)); [reflexivity|].
      destruct (ansValidate d); reflexivity. }
    split; [exact Hres|]. now rewrite DumpTable_closes, Hres.
Qed.

(** *** Messages that fail the check *)

Lemma checkMessages_Exists (ms : list netlink.Message) :
  Exists (fun m => checkMessage m <> None) ms ->
  exists e, checkMessages ms = Some e.
Proof.
  induction 1 as [m ms Hm|m ms _ IH]; cbn [checkMessages].
  - destruct (checkMessage m) as [e|]; [now exists e|contradiction].
  - destruct (checkMessage m) as [e|]; [now exists e|exact IH].
Qed.

Lemma deliver_emits (dump : bool) (ms : list netlink.Message) (w : World B) :
  emitted (trace (deliver dump ms w)) =
  match checkMessages ms with
  | Some _ => []
  | None => [{| msgs := strip ms; buffer := inUse (pool (consumer w)) |}]
  end.
Proof. rewrite deliver_run. now destruct (checkMessages ms). Qed.

(** What a turn sends on the output channel: nothing, or the batch as
    [deliver] strips it, and this only when every message passed the
    check. *)
Lemma readLoop_emits (dump : bool) (it : Iteration) (w : World B) :
  emitted (trace (readLoop dump it w)) = [] \/
  (checkMessages (recvMsgs it) = None /\
   exists buf, emitted (trace (readLoop dump it w)) =
               [{| msgs := strip (recvMsgs it); buffer := buf |}]).
Proof.
  pose proof (readLoop_run dump it w) as Hrun. cbv zeta in Hrun. rewrite Hrun.
  rewrite read_run, !world_mk, !trace_mk. clear Hrun.
  set (w1 := {| consumer := _; sockets := _ |}).
  assert (Hd : forall w2 : World B,
            emitted (trace (deliver dump (recvMsgs it) w2)) = [] \/
            (checkMessages (recvMsgs it) = None /\
             exists buf, emitted (trace (deliver dump (recvMsgs it) w2)) =
                         [{| msgs := strip (recvMsgs it); buffer := buf |}])).
  { intros w2. rewrite deliver_emits.
    destruct (checkMessages (recvMsgs it)); [now left|].
    right. split; [reflexivity|]. eexists. reflexivity. }
  assert (Hp : emitted (trace (process dump (answers it) (recvMsgs it) w1)) = [] \/
               (checkMessages (recvMsgs it) = None /\
                exists buf,
                  emitted (trace (process dump (answers it) (recvMsgs it) w1)) =
                  [{| msgs := strip (recvMsgs it); buffer := buf |}])).
  { rewrite process_run. destruct dump; [apply Hd|].
    cbv zeta. rewrite trace_mk.
    destruct (IsOpen _).
    - left. rewrite throttleAndContinue_run, trace_mk. cbn.
      apply throttle_actions.
    - apply Hd. }
  destruct (recvErr it) as [err|]; [|exact Hp].
  destruct (socketError err); try exact Hp.
  - now left.
  - left. destruct dump; [reflexivity|].
    rewrite bind_run, throttleAndContinue_run, trace_mk. cbn.
    apply throttle_actions.
Qed.

(** C6. When a message of the received batch fails [checkMessage], the turn
    sends no Event: nothing of the batch is emitted.  When the turn gets as
    far as the check (the read gave a batch to process and the breaker did
    not trip), it logs the error of the first failing message and the loop
    goes on with its next turn. *)
Theorem receive_bad_message (dump : bool) (it : Iteration)
        (rest : list Iteration) (w : World B) :
  Exists (fun m => checkMessage m <> None) (recvMsgs it) ->
  let turn := readLoop dump it w in
  let n := Z.of_nat (List.length (recvMsgs it)) in
  emitted (trace turn) = [] /\
  (processed it ->
   dump = true \/ IsOpen (Tick (breaker (consumer w)) n) = false ->
   exists e,
     checkMessages (recvMsgs it) = Some e /\
     result turn = Continue /\
     (exists t, trace turn =
                t ++ [Log Debugf "netlink message error: %s" [argError e]]) /\
     receive dump (it :: rest) w =
       let r := receive dump rest (world turn) in
       (result r, world r, trace turn ++ trace r)).
Proof.
  intros Hbad turn n.
  destruct (checkMessages_Exists _ Hbad) as [e He].
  split.
  - destruct (readLoop_emits dump it w) as [Hnone|[Hcheck _]];
      [exact Hnone|congruence].
  - intros Hp Hclosed. exists e. split; [exact He|].
    assert (Hturn : exists t w',
              turn = (Continue, w',
                      t ++ [Log Debugf "netlink message error: %s" [argError e]])).
    { subst turn. rewrite (readLoop_processed dump it w Hp), process_run.
      rewrite read_run, !world_mk, !trace_mk.
      destruct dump.
      - rewrite deliver_run, He. eexists [_], _. reflexivity.
      - destruct Hclosed as [Habs|Hclosed]; [discriminate|].
        cbv zeta. cbn [consumer set_pool breaker]. fold n. rewrite Hclosed.
        rewrite deliver_run, He. eexists [_; _; _], _. reflexivity. }
    destruct Hturn as (t & w' & Hturn).
    split; [now rewrite Hturn|].
    split; [exists t; now rewrite Hturn|].
    rewrite receive_cons. fold turn. cbv zeta. now rewrite Hturn.
Qed.

(** *** Done markers *)

Lemma lastIsDone_snoc (l : list netlink.Message) (x : netlink.Message) :
  lastIsDone (l ++ [x]) = isDone x.
Proof.
  unfold lastIsDone, isDone. rewrite length_app. cbn [List.length].
  replace (List.length l + 1 - 1)%nat with (List.length l) by lia.
  rewrite nth_error_app2 by lia. rewrite Nat.sub_diag. cbn [nth_error].
  destruct (Z.ltb_spec 0 (Z.of_nat (List.length l + 1))); [reflexivity|lia].
Qed.

Lemma firstn_snoc (l : list netlink.Message) (x : netlink.Message) :
  firstn (List.length (l ++ [x]) - 1) (l ++ [x]) = l.
Proof.
  rewrite length_app. cbn [List.length].
  replace (List.length l + 1 - 1)%nat with (List.length l) by lia.
  rewrite firstn_app, Nat.sub_diag, firstn_all. cbn. apply app_nil_r.
Qed.

Lemma strip_spec (ms : list netlink.Message) :
  (lastIsDone ms = true -> strip ms = removelast ms) /\
  (lastIsDone ms = false -> strip ms = ms) /\
  (forallb notDone (removelast ms) = true -> forallb notDone (strip ms) = true).
Proof.
  unfold strip. destruct ms as [|m ms'] using rev_ind.
  - repeat split; reflexivity.
  - clear IHms'. rewrite lastIsDone_snoc, firstn_snoc, removelast_last.
    destruct (isDone m) eqn:Hm.
    + repeat split; try reflexivity; try discriminate. auto.
    + repeat split; try reflexivity; try discriminate.
      intros Hl. rewrite forallb_app, Hl. cbn. unfold notDone. now rewrite Hm.
Qed.

(** C4, as the code has it.  Every Event the loop sends, in either mode,
    carries the batch of one turn with its last message taken away when that
    message is a done marker, and the batch as it was read otherwise.  So an
    Event holds no done marker whenever the batch held none before its last
    message; a done marker elsewhere in the batch is sent along. *)
Theorem emitted_without_last_marker (dump : bool) (script : list Iteration)
        (w : World B) :
  Forall (fun e =>
            exists it, In it script /\
              msgs e = strip (recvMsgs it) /\
              (lastIsDone (recvMsgs it) = true ->
               msgs e = removelast (recvMsgs it)) /\
              (lastIsDone (recvMsgs it) = false -> msgs e = recvMsgs it) /\
              (forallb notDone (removelast (recvMsgs it)) = true ->
               forallb notDone (msgs e) = true))
         (emitted (trace (receive dump script w))).
Proof.
  revert w. induction script as [|it rest IH]; intros w.
  - constructor.
  - rewrite receive_cons. cbv zeta.
    assert (Hturn : Forall (fun e =>
              exists it0, In it0 (it :: rest) /\
                msgs e = strip (recvMsgs it0) /\
                (lastIsDone (recvMsgs it0) = true ->
                 msgs e = removelast (recvMsgs it0)) /\
                (lastIsDone (recvMsgs it0) = false -> msgs e = recvMsgs it0) /\
                (forallb notDone (removelast (recvMsgs it0)) = true ->
                 forallb notDone (msgs e) = true))
              (emitted (trace (readLoop dump it w)))).
    { destruct (readLoop_emits dump it w) as [Hnone|[_ [buf Hone]]].
      - rewrite Hnone. constructor.
      - rewrite Hone. constructor; [|constructor].
        exists it. split; [now left|]. cbn [msgs].
        destruct (strip_spec (recvMsgs it)) as (Hlast & Hkeep & Hclean).
        repeat split; assumption. }
    destruct (result (readLoop dump it w)).
    + rewrite trace_mk, emitted_app. apply Forall_app. split; [exact Hturn|].
      eapply Forall_impl; [|apply IH].
      intros e (it0 & Hin & Hrest). exists it0. split; [now right|exact Hrest].
    + rewrite trace_mk. exact Hturn.
Qed.

End ReadLoop.

(** C10 on a turn whose read was interrupted. *)
Lemma receive_other_error_witness :
  @readLoop linux_amd64 _ countingBreakerOps false interruptedTurn freshWorld =
  @readLoop linux_amd64 _ countingBreakerOps false (withoutError interruptedTurn)
            freshWorld.
Proof.
  apply (@receive_other_error linux_amd64 _ countingBreakerOps false
           interruptedTurn [] freshWorld
           (errorString "recvmsg: interrupted system call")).
  - reflexivity.
  - vm_compute. discriminate.
  - vm_compute. discriminate.
Defined.

(** C5 on a turn whose read overflowed, in dump mode. *)
Lemma receive_overflow_witness :
  result (@receive linux_amd64 _ countingBreakerOps true [overflowTurn] freshWorld)
  = Returned.
Proof.
  rewrite (proj1 (@receive_overflow linux_amd64 _ countingBreakerOps
                    overflowTurn [] freshWorld
                    (errorString "recvmsg: no buffer space available")
                    eq_refl eq_refl)).
  reflexivity.
Defined.

(** C6 on a batch whose second message carries the error code -105. *)
Lemma receive_bad_message_witness :
  emitted (trace (@readLoop linux_amd64 _ countingBreakerOps true badTurn freshWorld))
  = [].
Proof.
  apply (@receive_bad_message linux_amd64 _ countingBreakerOps true badTurn []
           freshWorld).
  apply Exists_cons_tl, Exists_cons_hd. vm_compute. discriminate.
Defined.

(** C4, as the claim has it, fails: a batch whose first message is a done
    marker and whose last is not is sent as it was read, in streaming mode
    and in dump mode alike, so an Event with a done marker is emitted. *)
Lemma done_marker_emitted :
  let streaming :=
    @receive linux_amd64 _ countingBreakerOps false [doneFirstTurn] freshWorld in
  let dumping :=
    @receive linux_amd64 _ countingBreakerOps true [doneFirstTurn] freshWorld in
  (exists e, In e (emitted (trace streaming)) /\ existsb isDone (msgs e) = true) /\
  (exists e, In e (emitted (trace dumping)) /\ existsb isDone (msgs e) = true).
Proof.
  split; eexists; (split; [left; reflexivity|reflexivity]).
Qed.

(** C9 on an error message that carries the code -105. *)
Lemma checkMessage_spec_witness :
  @checkMessage linux_amd64 (message netlink.Error [x97; xff; xff; xff])
  = Some (Errno 105).
Proof.
  pose proof (@checkMessage_spec linux_amd64
                (message netlink.Error [x97; xff; xff; xff])) as Hspec.
  cbv zeta in Hspec. destruct Hspec as (_ & _ & Hcode & _).
  apply (Hcode eq_refl (-105) eq_refl).
  - discriminate.
  - lia.
Defined.

(** C8 at the threshold: from rate 0.25 the next rate is 0.2, the build is
    refused and no socket is made. *)
Lemma throttle_protocol_witness :
  result (@throttle _ countingBreakerOps allFine lowRateWorld)
  = Some errMaxSamplingAttempts /\
  socketsBuilt (trace (@throttle _ countingBreakerOps allFine lowRateWorld)) = 0%nat /\
  world (@throttle _ countingBreakerOps allFine lowRateWorld) = lowRateWorld.
Proof.
  pose proof (@throttle_protocol _ countingBreakerOps allFine lowRateWorld) as Hp.
  cbv zeta in Hp. destruct Hp as (_ & _ & _ & Hlow).
  apply Hlow. reflexivity.
Defined.

(** C7 on a streaming turn that read one message. *)
Lemma receive_breaker_witness :
  exists t,
    trace (@readLoop linux_amd64 _ countingBreakerOps false plainTurn freshWorld) =
    [CallReceive (socket (consumer freshWorld)); CallTick 1; CallIsOpen] ++ t.
Proof.
  pose proof (@receive_breaker linux_amd64 _ countingBreakerOps plainTurn []
                freshWorld) as Hb.
  cbv zeta in Hb. destruct Hb as (Hstream & _).
  destruct (Hstream I) as (Hticks & _). exact Hticks.
Defined.

(** C4 on the last batch of a dump: the Event holds the message and not the
    marker. *)
Lemma emitted_without_last_marker_witness :
  Forall (fun e => forallb notDone (msgs e) = true)
         (emitted (trace (@receive linux_amd64 _ countingBreakerOps true
                            [doneLastTurn] freshWorld))).
Proof.
  eapply Forall_impl;
    [|exact (@emitted_without_last_marker linux_amd64 _ countingBreakerOps true
               [doneLastTurn] freshWorld)].
  intros e (it & [Hit|[]] & _ & _ & _ & Hclean). subst it.
  apply Hclean. reflexivity.
Defined.

(** ** Runs of the model *)

(** A table dump answered by three batches, the last of which ends in the
    done marker: three Events, the last without the marker, and then the
    channel is closed. *)
Example dump_three_batches :
  let r := @DumpTable linux_amd64 _ countingBreakerOps x02
             {| ansSend := (dumpRequest x02, None); ansValidate := None |}
             [plainTurn; plainTurn; doneLastTurn] freshWorld in
  result r = Returned /\
  map msgs (emitted (trace r)) =
    [[message ctNew [x01; x02]]; [message ctNew [x01; x02]];
     [message ctNew [x03; x04]]] /\
  closes (trace r) = 1%nat /\
  last (trace r) CallNewSocket = ChanClose.
Proof. vm_compute. repeat split. Qed.

(** Streaming: the socket is closed after two batches; two Events were
    sent, the loop has returned and the channel has not been closed. *)
Example events_then_stop :
  let r := @Events linux_amd64 _ countingBreakerOps
             [plainTurn; plainTurn; eofTurn] freshWorld in
  result r = Returned /\
  List.length (emitted (trace r)) = 2%nat /\
  closes (trace r) = 0%nat.
Proof. vm_compute. repeat split. Qed.

(** The dump request: request and dump flags, the family in the payload. *)
Example dump_request_shape :
  netlink.Flags (netlink.Hdr (dumpRequest x0a)) = 769 /\
  netlink.Type_ (netlink.Hdr (dumpRequest x0a)) = 257 /\
  netlink.Data (dumpRequest x0a) = [x0a; x00; x00; x00].
Proof. repeat split. Qed.

(** The classification of socket errors by their text. *)
Example socketError_kinds :
  @socketError linux_amd64 (errorString "read netlink: use of closed file") = errEOF /\
  @socketError linux_amd64 (Errno 105) = errENOBUF /\
  @socketError linux_amd64 (errorString "recvmsg: interrupted system call")
  = errorString "recvmsg: interrupted system call".
Proof. vm_compute. repeat split. Qed.

(** * Further properties of the consumer *)

(** ** Socket creation *)

Section SocketCreation.

Context {B : Type} `{CircuitBreaker B}.

(** What [initNetlinkSocket] returns and what it leaves behind, case by
    case. *)
Lemma initNetlinkSocket_run (a : Answers) (rate : float) (w : World B) :
  let r := initNetlinkSocket a rate w in
  let made :=
    {| consumer :=
         set_samplingRate rate
           (set_conn (Some (sockets w)) (set_socket (Some (sockets w)) (consumer w)));
       sockets := S (sockets w) |} in
  if (rate <=? minSamplingThreshold)%float then r = (Some errMaxSamplingAttempts, w, [])
  else
    match ansNewSocket a with
    | Some e =>
        r = (Some e,
             {| consumer := set_socket None (consumer w); sockets := sockets w |},
             [CallNewSocket])
    | None =>
        world r = made /\
        socketsBuilt (trace r) = 1%nat /\
        groupCalls (trace r) = 0%nat /\
        if (1 <=? rate)%float
        then result r = None /\ filterCalls (trace r) = 0%nat
        else
          result r =
            option_map (Errorf "failed to attach BPF filter: ") (ansSetBPF a) /\
          filter (fun x => match x with CallSetBPF _ _ => true | _ => false end)
                 (trace r) = [CallSetBPF (Some (sockets w)) rate]
    end.
Proof.
  cbv zeta.
  unfold initNetlinkSocket, NewSocket, setSocketBufferSize,
    getSocketBufferSize, SetBPF, whenErr, logf, call, modify, getc, bind, ret.
  destruct (rate <=? minSamplingThreshold)%float; [reflexivity|].
  destruct (ansNewSocket a); [reflexivity|].
  destruct (ansSetBufferSize a), (ansGetBufferSize a) as [sz [szErr|]];
    cbn; destruct (1 <=? rate)%float; cbn;
    try (repeat split; reflexivity);
    destruct (ansSetBPF a); repeat split; reflexivity.
Qed.

(** X1. [NewConsumer] fails exactly when [NewSocket] fails, and with that
    error: the safeguard on the sampling rate never fires at the first build
    and no filter is installed there, so a filter error cannot occur.  On
    success the consumer samples everything (rate 1.0), holds the first
    socket and its connection, has joined no group, and its pool is empty. *)
Theorem NewConsumer_outcome (a : Answers) :
  let r := @NewConsumer B _ a in
  result r = ansNewSocket a /\
  socketsBuilt (trace r) = 1%nat /\
  filterCalls (trace r) = 0%nat /\
  groupCalls (trace r) = 0%nat /\
  (ansNewSocket a = None ->
   consumer (world r) =
     {| conn := Some 0%nat; socket := Some 0%nat; pool := newBufferPool;
        samplingRate := 1.0%float;
        breaker := NewCircuitBreaker maxMessagesPerSecond |} /\
   sockets (world r) = 1%nat).
Proof.
  cbv zeta. unfold NewConsumer.
  pose proof (initNetlinkSocket_run a 1.0%float newWorld) as Hrun.
  cbv zeta in Hrun.
  change (1 <=? minSamplingThreshold)%float with false in Hrun.
  change (1 <=? 1)%float with true in Hrun.
  destruct (ansNewSocket a) as [e|].
  - rewrite Hrun. repeat split; discriminate.
  - destruct Hrun as (Hw & Hb & Hg & Hres & Hf).
    rewrite Hw. repeat split; assumption.
Qed.

(** X2. [initNetlinkSocket] installs the sampling filter exactly when the
    socket was made and the rate is below 1.0 (and above the threshold), and
    then once, on the new socket, for that rate.  When the installation
    fails the error comes back wrapped, and the consumer has already moved to
    the new socket, its connection and the new sampling rate: the failure is
    not rolled back. *)
Theorem initNetlinkSocket_filter (a : Answers) (rate : float) (w : World B) :
  let r := initNetlinkSocket a rate w in
  let wanted :=
    negb (rate <=? minSamplingThreshold)%float &&
    match ansNewSocket a with None => true | Some _ => false end &&
    negb (1 <=? rate)%float in
  filter (fun x => match x with CallSetBPF _ _ => true | _ => false end) (trace r)
  = (if wanted then [CallSetBPF (Some (sockets w)) rate] else []) /\
  (wanted = true ->
   result r = option_map (Errorf "failed to attach BPF filter: ") (ansSetBPF a) /\
   samplingRate (consumer (world r)) = rate /\
   socket (consumer (world r)) = Some (sockets w) /\
   conn (consumer (world r)) = Some (sockets w) /\
   sockets (world r) = S (sockets w)).
Proof.
  cbv zeta.
  pose proof (initNetlinkSocket_run a rate w) as Hrun. cbv zeta in Hrun.
  destruct (rate <=? minSamplingThreshold)%float.
  - rewrite Hrun. split; [reflexivity|discriminate].
  - destruct (ansNewSocket a) as [e|].
    + rewrite Hrun. split; [reflexivity|discriminate].
    + destruct Hrun as (Hw & Hb & Hg & Hrest).
      destruct (1 <=? rate)%float.
      * destruct Hrest as [Hres Hf]. split; [|discriminate].
        unfold filterCalls in Hf. cbn [negb andb].
        now apply length_zero_iff_nil in Hf.
      * destruct Hrest as [Hres Hf]. cbn [negb andb].
        split; [exact Hf|]. intros _. rewrite Hw. repeat split. exact Hres.
Qed.

End SocketCreation.

(** X2 when the kernel refuses the filter at rate 0.8. *)
Lemma initNetlinkSocket_filter_witness :
  let refused :=
    {| ansLeaveGroup := None; ansNewSocket := None; ansSetBufferSize := None;
       ansGetBufferSize := (212992, None);
       ansSetBPF := Some (Errno 22) |} in
  let r := @initNetlinkSocket countingBreaker refused 0.8%float freshWorld in
  result r = Some (Errorf "failed to attach BPF filter: " (Errno 22)) /\
  samplingRate (consumer (world r)) = 0.8%float /\
  socket (consumer (world r)) = Some 1%nat /\
  conn (consumer (world r)) = Some 1%nat /\
  sockets (world r) = 2%nat.
Proof.
  cbv zeta.
  apply (@initNetlinkSocket_filter countingBreaker
           {| ansLeaveGroup := None; ansNewSocket := None; ansSetBufferSize := None;
              ansGetBufferSize := (212992, None);
              ansSetBPF := Some (Errno 22) |} 0.8%float freshWorld).
  reflexivity.
Defined.

(** ** The classification of socket errors *)

Section Classification.

Context `{Platform}.

Local Open Scope string_scope.

Lemma Contains_unfold (s sub : string) :
  Contains s sub =
  if String.prefix sub s then true
  else match s with
       | EmptyString => false
       | String _ s' => Contains s' sub
       end.
Proof. destruct s; reflexivity. Qed.

Lemma prefix_append (sub post : string) : String.prefix sub (sub ++ post) = true.
Proof.
  induction sub as [|c sub IH]; cbn.
  - now destruct post.
  - destruct (ascii_dec c c); [exact IH|contradiction].
Qed.

Lemma prefix_split (sub s : string) :
  String.prefix sub s = true -> exists post, s = sub ++ post.
Proof.
  revert s. induction sub as [|c sub IH]; intros s Hp.
  - now exists s.
  - destruct s as [|d s]; cbn in Hp; [discriminate|].
    destruct (ascii_dec c d) as [->|]; [|discriminate].
    destruct (IH s Hp) as [post ->]. now exists post.
Qed.

(** [Contains s sub] holds exactly when [sub] occurs somewhere in [s]. *)
Lemma Contains_spec (s sub : string) :
  Contains s sub = true <-> exists pre post, s = pre ++ sub ++ post.
Proof.
  split.
  - induction s as [|c s IH]; rewrite Contains_unfold;
      destruct (String.prefix sub _) eqn:Hp.
    + intros _. destruct (prefix_split _ _ Hp) as [post ->]. now exists "", post.
    + discriminate.
    + intros _. destruct (prefix_split _ _ Hp) as [post ->]. now exists "", post.
    + intros Hc. destruct (IH Hc) as (pre & post & ->).
      now exists (String c pre), post.
  - intros (pre & post & ->). induction pre as [|c pre IH].
    + rewrite Contains_unfold. cbn [append]. now rewrite prefix_append.
    + rewrite Contains_unfold. cbn [append].
      destruct (String.prefix sub _); [reflexivity|exact IH].
Qed.

Lemma Contains_append (p s sub : string) :
  Contains s sub = true -> Contains (p ++ s) sub = true.
Proof.
  intros Hc. induction p as [|c p IH]; [exact Hc|].
  rewrite Contains_unfold. cbn [append].
  destruct (String.prefix sub _); [reflexivity|exact IH].
Qed.

(** X3. [socketError] classifies an error by its text alone.  A text that
    holds "closed file" anywhere makes the error end-of-stream, also when it
    holds "no buffer space" as well, and also behind any prefix a wrapper
    adds; otherwise a text that holds "no buffer space" makes it
    buffer-overflow; every other error comes back as it is.  The two
    results are classified as themselves, so classifying twice changes
    nothing. *)
Theorem socketError_by_text (err : error) :
  let holds := fun sub => exists pre post, Error_ err = pre ++ sub ++ post in
  (holds "closed file" -> socketError err = errEOF) /\
  (holds "closed file" -> forall prefix, socketError (Errorf prefix err) = errEOF) /\
  (~ holds "closed file" -> holds "no buffer space" ->
   socketError err = errENOBUF) /\
  (~ holds "closed file" -> ~ holds "no buffer space" -> socketError err = err) /\
  socketError (socketError err) = socketError err.
Proof.
  cbv zeta. unfold socketError.
  pose proof (Contains_spec (Error_ err) "closed file") as Hclosed.
  pose proof (Contains_spec (Error_ err) "no buffer space") as Hspace.
  split; [|split; [|split; [|split]]].
  - intros Hh. apply Hclosed in Hh. now rewrite Hh.
  - intros Hh prefix. apply Hclosed in Hh. cbn [Error_].
    now rewrite (Contains_append prefix _ _ Hh).
  - intros Hn Hh. apply Hspace in Hh. rewrite Hh.
    destruct (Contains (Error_ err) "closed file"); [|reflexivity].
    exfalso. apply Hn, Hclosed. reflexivity.
  - intros Hn Hm.
    destruct (Contains (Error_ err) "closed file");
      [exfalso; apply Hn, Hclosed; reflexivity|].
    destruct (Contains (Error_ err) "no buffer space");
      [exfalso; apply Hm, Hspace; reflexivity|reflexivity].
  - destruct (Contains (Error_ err) "closed file") eqn:Hc; [reflexivity|].
    destruct (Contains (Error_ err) "no buffer space") eqn:Hs; [reflexivity|].
    now rewrite Hc, Hs.
Qed.

End Classification.

(** X3 on the error of a read from a closed socket, wrapped once more. *)
Lemma socketError_by_text_witness :
  @socketError linux_amd64
    (Errorf "netlink receive: "
            (errorString "read: use of closed file, no buffer space left"))
  = errEOF.
Proof.
  pose proof (@socketError_by_text linux_amd64
                (errorString "read: use of closed file, no buffer space left"))
    as Hs.
  cbv zeta in Hs. destruct Hs as (_ & Hwrapped & _).
  apply Hwrapped.
  exists "read: use of "%string, ", no buffer space left"%string. reflexivity.
Defined.

(** ** Runs of the loop *)

Section Runs.

Context `{Platform} {B : Type} `{CircuitBreaker B}.

Lemma socketsBuilt_app (t1 t2 : list action) :
  socketsBuilt (t1 ++ t2) = (socketsBuilt t1 + socketsBuilt t2)%nat.
Proof. unfold socketsBuilt. now rewrite filter_app, length_app. Qed.

Lemma quiet_builds_nothing (t : list action) :
  forallb isQuiet t = true -> socketsBuilt t = 0%nat.
Proof.
  induction t as [|a t IH]; [reflexivity|]. cbn [forallb].
  intros Hq. apply andb_prop in Hq as [Ha Ht].
  change (a :: t) with ([a] ++ t). rewrite socketsBuilt_app, (IH Ht).
  destruct a; try discriminate; reflexivity.
Qed.

Lemma sameLink_refl (w : World B) : sameLink w w.
Proof. repeat split. Qed.

(** A turn either leaves the socket alone, and then it returns only at the
    end of the stream or in dump mode, or it is a streaming turn that ends in
    a throttle. *)
Lemma readLoop_cases (dump : bool) (it : Iteration) (w : World B) :
  let r := readLoop dump it w in
  (sameLink w (world r) /\
   forallb isQuiet (trace r) = true /\
   (dump = true -> breaker (consumer (world r)) = breaker (consumer w)) /\
   (result r = Return ->
    dump = true \/
    exists err, recvErr it = Some err /\ socketError err = errEOF)) \/
  (dump = false /\
   exists (w1 : World B) (t0 : list action),
     sameLink w w1 /\
     forallb isQuiet t0 = true /\
     r = (afterThrottle (result (throttle (answers it) w1)),
          world (throttle (answers it) w1),
          t0 ++ trace (throttle (answers it) w1))).
Proof.
  cbv zeta.
  pose proof (readLoop_run dump it w) as Hrun. cbv zeta in Hrun. rewrite Hrun.
  rewrite read_run, !world_mk, !trace_mk. clear Hrun.
  set (w1 := {| consumer := _; sockets := _ |}).
  assert (Hlink : sameLink w w1) by (repeat split).
  assert (Hd : forall w2 : World B, sameLink w w2 ->
            (dump = true -> breaker (consumer w2) = breaker (consumer w)) ->
            forall t0, forallb isQuiet t0 = true ->
            let r := deliver dump (recvMsgs it) w2 in
            sameLink w (world r) /\
            forallb isQuiet (t0 ++ trace r) = true /\
            (dump = true -> breaker (consumer (world r)) = breaker (consumer w)) /\
            (result r = Return -> dump = true)).
  { intros w2 Hl Hb t0 Ht0. cbv zeta. rewrite deliver_run.
    destruct (checkMessages (recvMsgs it));
      rewrite ?world_mk, ?trace_mk, ?result_mk, forallb_app, Ht0.
    - repeat split; try apply Hl; try assumption. discriminate.
    - repeat split; try apply Hl; try assumption.
      destruct dump; [reflexivity|discriminate]. }
  assert (Hp : let r := process dump (answers it) (recvMsgs it) w1 in
            (sameLink w (world r) /\
             forallb isQuiet (CallReceive (socket (consumer w)) :: trace r) = true /\
             (dump = true -> breaker (consumer (world r)) = breaker (consumer w)) /\
             (result r = Return -> dump = true)) \/
            (dump = false /\
             exists (w2 : World B) (t0 : list action),
               sameLink w w2 /\
               forallb isQuiet t0 = true /\
               (result r, world r, CallReceive (socket (consumer w)) :: trace r) =
               (afterThrottle (result (throttle (answers it) w2)),
                world (throttle (answers it) w2),
                t0 ++ trace (throttle (answers it) w2)))).
  { cbv zeta. rewrite process_run. destruct dump.
    - left. apply (Hd w1 Hlink (fun _ => eq_refl) [CallReceive (socket (consumer w))]).
      reflexivity.
    - cbv zeta. destruct (IsOpen _).
      + right. split; [reflexivity|].
        rewrite throttleAndContinue_run, !result_mk, !world_mk, !trace_mk.
        eexists _, [CallReceive (socket (consumer w)); CallTick _; CallIsOpen].
        split; [|split; [reflexivity|reflexivity]]. repeat split.
      + left. rewrite !result_mk, !world_mk, !trace_mk.
        match goal with
        | |- context [deliver false ?ms ?w2] =>
            apply (Hd w2 ltac:(repeat split) ltac:(discriminate)
                      [CallReceive (socket (consumer w)); CallTick _; CallIsOpen])
        end. reflexivity. }
  cbv zeta in Hp.
  assert (Hproc : let r := process dump (answers it) (recvMsgs it) w1 in
            (sameLink w (world r) /\
             forallb isQuiet ([CallReceive (socket (consumer w))] ++ trace r) = true /\
             (dump = true -> breaker (consumer (world r)) = breaker (consumer w)) /\
             (result r = Return ->
              dump = true \/
              exists err, recvErr it = Some err /\ socketError err = errEOF)) \/
            (dump = false /\
             exists (w2 : World B) (t0 : list action),
               sameLink w w2 /\
               forallb isQuiet t0 = true /\
               (result r, world r, [CallReceive (socket (consumer w))] ++ trace r) =
               (afterThrottle (result (throttle (answers it) w2)),
                world (throttle (answers it) w2),
                t0 ++ trace (throttle (answers it) w2)))).
  { cbv zeta. destruct Hp as [(Ha & Hb & Hc & Hd')|Hthr]; [left|right; exact Hthr].
    repeat split; try apply Ha; try assumption. intros Hr. left. now apply Hd'. }
  cbv zeta in Hproc.
  destruct (recvErr it) as [err|] eqn:Herr; [|exact Hproc].
  destruct (socketError err) eqn:Hk; try exact Hproc.
  - left. unfold ret. rewrite result_mk, world_mk, trace_mk.
    repeat split. intros _. right. now exists err.
  - destruct dump.
    + left. unfold logf, call, bind, ret. cbn.
      repeat split. intros _. now left.
    + right. split; [reflexivity|].
      rewrite bind_run, throttleAndContinue_run.
      unfold logf, call. rewrite !result_mk, !world_mk, !trace_mk.
      eexists w1, [CallReceive (socket (consumer w)); Log Warnf _ []].
      split; [exact Hlink|]. split; reflexivity.
Qed.

(** *** The sampling rate along a run *)

Lemma rateAt_above (k : nat) :
  (k <= 7)%nat ->
  (rateAt k <=? minSamplingThreshold)%float = false /\
  (minSamplingThreshold <? rateAt k)%float = true.
Proof.
  intros Hk.
  do 8 (destruct k as [|k]; [vm_compute; split; reflexivity|]). lia.
Qed.

Lemma rateAt_exhausted : (rateAt 8 <=? minSamplingThreshold)%float = true.
Proof. vm_compute. reflexivity. Qed.

Lemma throttle_built (a : Answers) (w : World B) :
  socketsBuilt (trace (throttle a w)) =
  socketsBuilt
    (trace (initNetlinkSocket a
              (samplingRate (consumer w) * throttlingFactor)%float w)).
Proof.
  pose proof (throttle_run a w) as Hrun. cbv zeta in Hrun. rewrite Hrun.
  destruct (result (initNetlinkSocket a _ w)); rewrite trace_mk;
    change (?x :: ?l ++ ?t) with ([x] ++ l ++ t);
    rewrite !socketsBuilt_app;
    destruct (ansLeaveGroup a); cbn; lia.
Qed.

(** A throttle at the [k]-th rate either succeeds, builds one socket and
    moves to the next rate, or fails having built at most what is left. *)
Lemma throttle_level (a : Answers) (w : World B) (k : nat) :
  samplingRate (consumer w) = rateAt k ->
  (k <= 7)%nat ->
  let r := throttle a w in
  exists k',
    (k <= k' <= 7)%nat /\
    samplingRate (consumer (world r)) = rateAt k' /\
    match result r with
    | None => socketsBuilt (trace r) = (k' - k)%nat
    | Some _ => (socketsBuilt (trace r) <= 7 - k)%nat
    end.
Proof.
  intros Hrate Hk. cbv zeta. rewrite throttle_built.
  pose proof (throttle_run a w) as Hrun. cbv zeta in Hrun. rewrite Hrun.
  pose proof (initNetlinkSocket_run a
                (samplingRate (consumer w) * throttlingFactor)%float w) as Hinit.
  cbv zeta in Hinit. rewrite Hrate in *.
  change (rateAt k * throttlingFactor)%float with (rateAt (S k)) in *.
  destruct (Nat.eq_dec k 7) as [->|Hne].
  - rewrite rateAt_exhausted in Hinit. rewrite Hinit.
    rewrite !result_mk, !world_mk, !trace_mk.
    exists 7%nat. repeat split; try lia; [exact Hrate|cbn; lia].
  - destruct (rateAt_above (S k)) as [Habove _]; [lia|].
    rewrite Habove in Hinit.
    destruct (ansNewSocket a) as [e|].
    + rewrite Hinit, !result_mk, !world_mk, !trace_mk.
      exists k. repeat split; try lia; [exact Hrate|].
      change (socketsBuilt [CallNewSocket]) with 1%nat. lia.
    + destruct Hinit as (Hw & Hb & _ & _). rewrite Hb.
      exists (S k).
      destruct (result (initNetlinkSocket a (rateAt (S k)) w));
        rewrite !result_mk, !world_mk; rewrite Hw;
        repeat split; try lia.
Qed.

Lemma readLoop_level (dump : bool) (it : Iteration) (w : World B) (k : nat) :
  samplingRate (consumer w) = rateAt k ->
  (k <= 7)%nat ->
  let r := readLoop dump it w in
  exists k',
    (k <= k' <= 7)%nat /\
    samplingRate (consumer (world r)) = rateAt k' /\
    match result r with
    | Continue => socketsBuilt (trace r) = (k' - k)%nat
    | Return => (socketsBuilt (trace r) <= 7 - k)%nat
    end.
Proof.
  intros Hrate Hk. cbv zeta.
  destruct (readLoop_cases dump it w) as
    [((_ & _ & Hr & _) & Hq & _ & _)|(_ & w1 & t0 & (_ & _ & Hr & _) & Hq & Hturn)].
  - exists k. rewrite (quiet_builds_nothing _ Hq), Hr.
    repeat split; try lia; [exact Hrate|].
    destruct (result (readLoop dump it w)); lia.
  - cbv zeta in Hturn. rewrite Hturn, result_mk, world_mk, trace_mk.
    rewrite socketsBuilt_app, (quiet_builds_nothing _ Hq).
    destruct (throttle_level (answers it) w1 k) as (k' & Hk' & Hrate' & Hbuilt);
      [now rewrite Hr|exact Hk|].
    exists k'. repeat split; try lia; [exact Hrate'|].
    destruct (result (throttle (answers it) w1)); cbn [afterThrottle]; lia.
Qed.

Lemma receive_level (dump : bool) (script : list Iteration) (w : World B)
      (k : nat) :
  samplingRate (consumer w) = rateAt k ->
  (k <= 7)%nat ->
  let r := receive dump script w in
  (socketsBuilt (trace r) <= 7 - k)%nat /\
  exists k', (k <= k' <= 7)%nat /\
             samplingRate (consumer (world r)) = rateAt k'.
Proof.
  revert w k. induction script as [|it rest IH]; intros w k Hrate Hk; cbv zeta.
  - split; [cbn; lia|]. exists k. split; [lia|exact Hrate].
  - rewrite receive_cons. cbv zeta.
    destruct (readLoop_level dump it w k Hrate Hk) as (k1 & Hk1 & Hrate1 & Hbuilt).
    destruct (result (readLoop dump it w)).
    + destruct (IH (world (readLoop dump it w)) k1 Hrate1 (proj2 Hk1))
        as (Hrest & k2 & Hk2 & Hrate2).
      rewrite world_mk, trace_mk, socketsBuilt_app.
      split; [lia|]. exists k2. split; [lia|exact Hrate2].
    + rewrite world_mk, trace_mk. split; [exact Hbuilt|].
      exists k1. split; [lia|exact Hrate1].
Qed.

(** X5. Whatever the kernel answers and however long the loop runs, a
    consumer that starts at rate 1.0 calls [NewSocket] at most seven times
    from the loop, and its sampling rate is always one of the eight rates
    1.0, 0.8, ..., 0.8^7, hence above the threshold of 0.2. *)
Theorem receive_rebuilds_bounded (dump : bool) (script : list Iteration)
        (w : World B) :
  samplingRate (consumer w) = 1.0%float ->
  let r := receive dump script w in
  (socketsBuilt (trace r) <= 7)%nat /\
  (exists k, (k <= 7)%nat /\ samplingRate (consumer (world r)) = rateAt k) /\
  (minSamplingThreshold <? samplingRate (consumer (world r)))%float = true.
Proof.
  intros Hrate. cbv zeta.
  destruct (receive_level dump script w 0 Hrate ltac:(lia))
    as (Hbuilt & k & Hk & Hrate').
  split; [lia|]. split; [exists k; split; [lia|exact Hrate']|].
  rewrite Hrate'. apply rateAt_above. lia.
Qed.

(** *** How a streaming loop ends *)

Lemma throttle_failure_log (a : Answers) (w : World B) (e : error) :
  result (throttle a w) = Some e ->
  exists t,
    trace (throttle a w) =
    t ++ [Log Errorf_ "failed to re-create netlink socket. exiting conntrack: %s"
              [argError e]].
Proof.
  pose proof (throttle_run a w) as Hrun. cbv zeta in Hrun. rewrite Hrun.
  destruct (result (initNetlinkSocket a _ w)) as [e'|];
    rewrite result_mk, trace_mk; [|discriminate].
  intros [= ->]. eexists.
  change (?x :: ?l ++ ?t) with ((x :: l) ++ t). rewrite app_assoc. reflexivity.
Qed.

(** X6. A streaming loop returns only in a turn whose read found the socket
    closed, or in a turn whose throttle failed, and then the last thing it
    did was to log that failure.  No batch ends it, whether it holds a done
    marker, a failing message or nothing; the turns after the returning one
    are never played. *)
Theorem streaming_ends (script : list Iteration) (w : World B) :
  result (receive false script w) = Returned ->
  exists pre it post,
    script = pre ++ it :: post /\
    receive false script w = receive false (pre ++ [it]) w /\
    ((exists err, recvErr it = Some err /\ socketError err = errEOF) \/
     (exists e t,
        trace (receive false script w) =
        t ++ [Log Errorf_ "failed to re-create netlink socket. exiting conntrack: %s"
                  [argError e]])).
Proof.
  revert w. induction script as [|it rest IH]; intros w; [discriminate|].
  rewrite receive_cons. cbv zeta.
  destruct (result (readLoop false it w)) eqn:Hres.
  - rewrite result_mk. intros Hret.
    destruct (IH _ Hret) as (pre & it' & post & -> & Hsame & Hwhy).
    exists (it :: pre), it', post. split; [reflexivity|].
    split.
    + cbn [app]. rewrite receive_cons. cbv zeta. rewrite Hres, Hsame. reflexivity.
    + destruct Hwhy as [Heof|(e & t & Ht)]; [now left|right].
      exists e, (trace (readLoop false it w) ++ t).
      rewrite trace_mk, Ht. now rewrite app_assoc.
  - intros _. exists [], it, rest. split; [reflexivity|].
    split; [cbn [app]; rewrite receive_cons; cbv zeta; now rewrite Hres|].
    destruct (readLoop_cases false it w) as
      [(_ & _ & _ & Hwhy)|(_ & w1 & t0 & _ & _ & Hturn)].
    + destruct (Hwhy Hres) as [Habs|Heof]; [discriminate|now left].
    + right. cbv zeta in Hturn. rewrite Hturn in Hres. rewrite result_mk in Hres.
      destruct (result (throttle (answers it) w1)) as [e|] eqn:Hth;
        [|discriminate].
      destruct (throttle_failure_log _ _ _ Hth) as [t Ht].
      exists e, (t0 ++ t). rewrite trace_mk, Hturn, trace_mk, Ht.
      now rewrite app_assoc.
Qed.

(** *** A table dump leaves the socket alone *)

Lemma sameLink_trans (w1 w2 w3 : World B) :
  sameLink w1 w2 -> sameLink w2 w3 -> sameLink w1 w3.
Proof.
  intros (Ha & Hb & Hc & Hd) (Ha' & Hb' & Hc' & Hd').
  repeat split; congruence.
Qed.

Lemma receive_dump_link (script : list Iteration) (w : World B) :
  sameLink w (world (receive true script w)) /\
  breaker (consumer (world (receive true script w))) = breaker (consumer w).
Proof.
  revert w. induction script as [|it rest IH]; intros w.
  - split; [apply sameLink_refl|reflexivity].
  - rewrite receive_cons. cbv zeta.
    destruct (readLoop_cases true it w) as
      [(Hl & _ & Hb & _)|(Habs & _)]; [|discriminate].
    destruct (result (readLoop true it w)); rewrite world_mk.
    + destruct (IH (world (readLoop true it w))) as [Hl' Hb'].
      split; [eapply sameLink_trans; eassumption|].
      rewrite Hb'. now apply Hb.
    + split; [exact Hl|now apply Hb].
Qed.

(** X7. A table dump never throttles.  Whatever is read, and however the
    dump ends, [DumpTable] leaves the socket, the connection, the sampling
    rate and the breaker of the consumer as they were, and all it does after
    the request is to read, log and send Events, and to close the channel. *)
Theorem DumpTable_leaves_link (family : byte) (d : DumpAnswers)
        (script : list Iteration) (w : World B) :
  let r := DumpTable family d script w in
  sameLink w (world r) /\
  breaker (consumer (world r)) = breaker (consumer w) /\
  socketsBuilt (trace r) = 0%nat /\
  forallb (fun a => match a with
                    | CallSend _ _ | CallValidate _ _ | CallReceive _
                    | Log _ _ _ | ChanSend _ | ChanClose => true
                    | _ => false
                    end) (trace r) = true.
Proof.
  cbv zeta.
  pose proof (DumpTable_run family d script w) as Hrun. cbv zeta in Hrun.
  rewrite Hrun. clear Hrun.
  destruct (snd (ansSend d));
    [repeat split|].
  destruct (ansValidate d); [repeat split|].
  destruct (receive_dump_link script w) as [Hl Hb].
  pose proof (receive_actions true script w) as Hact.
  assert (Hok : forallb (fun a => match a with
                    | CallSend _ _ | CallValidate _ _ | CallReceive _
                    | Log _ _ _ | ChanSend _ | ChanClose => true
                    | _ => false
                    end) (trace (receive true script w)) = true).
  { eapply forallb_forall. intros x Hx.
    pose proof (proj1 (forallb_forall _ _) Hact x Hx) as Hbx.
    destruct x; try discriminate; reflexivity. }
  assert (Hnone : socketsBuilt (trace (receive true script w)) = 0%nat).
  { unfold socketsBuilt. apply length_zero_iff_nil.
    induction (trace (receive true script w)) as [|x t IHt]; [reflexivity|].
    cbn [forallb] in Hact. apply andb_prop in Hact as [Hx Ht].
    cbn [filter]. destruct x; try discriminate; now apply IHt. }
  destruct (result (receive true script w)); rewrite world_mk, trace_mk;
    (split; [exact Hl|]); (split; [exact Hb|]);
    change (?x :: ?y :: ?t) with ([x; y] ++ t);
    rewrite ?socketsBuilt_app, ?forallb_app, Hnone, Hok; repeat split.
Qed.

(** *** The order of the Events *)

(** X8. The Events of a run are sent in the order in which their batches
    were read: the message sequences sent are, in order, the stripped batches
    of some of the turns, each turn giving at most one Event and no two
    batches being merged. *)
Theorem emitted_in_order (dump : bool) (script : list Iteration) (w : World B) :
  Subseq (map msgs (emitted (trace (receive dump script w))))
         (map (fun it => strip (recvMsgs it)) script).
Proof.
  revert w. induction script as [|it rest IH]; intros w.
  - constructor.
  - rewrite receive_cons. cbv zeta. cbn [map].
    destruct (readLoop_emits dump it w) as [Hnone|[_ [buf Hone]]];
      destruct (result (readLoop dump it w));
      rewrite trace_mk, ?emitted_app, ?Hnone, ?Hone; cbn [app map msgs].
    + apply Subseq_skip, IH.
    + constructor.
    + apply Subseq_take, IH.
    + apply Subseq_take. constructor.
Qed.

(** *** The end of a table dump *)

Lemma receiveCalls_app (t1 t2 : list action) :
  receiveCalls (t1 ++ t2) = (receiveCalls t1 + receiveCalls t2)%nat.
Proof. unfold receiveCalls. now rewrite filter_app, length_app. Qed.

Lemma readLoop_dump_clean (it : Iteration) (w : World B) :
  clean it ->
  let rd := (pool_Reset ;; socket_Receive it) w in
  readLoop true it w =
  (if lastIsDone (recvMsgs it) then Return else Continue, world rd,
   [CallReceive (socket (consumer w));
    ChanSend {| msgs := strip (recvMsgs it);
                buffer := inUse (pool (consumer (world rd))) |}]).
Proof.
  intros [Herr Hcheck]. cbv zeta.
  assert (Hp : processed it) by (unfold processed; now rewrite Herr).
  rewrite (readLoop_processed true it w Hp), process_run, deliver_run, Hcheck.
  rewrite read_run, !result_mk, !world_mk, !trace_mk. reflexivity.
Qed.

Lemma receive_dump_clean (pre : list Iteration) (last : Iteration)
      (post : list Iteration) (w : World B) :
  Forall (fun it => clean it /\ lastIsDone (recvMsgs it) = false) pre ->
  clean last ->
  lastIsDone (recvMsgs last) = true ->
  let r := receive true (pre ++ last :: post) w in
  result r = Returned /\
  map msgs (emitted (trace r)) =
    map recvMsgs pre ++ [removelast (recvMsgs last)] /\
  receiveCalls (trace r) = S (List.length pre) /\
  exists t0 e, trace r = t0 ++ [ChanSend e] /\
               msgs e = removelast (recvMsgs last).
Proof.
  intros Hpre Hlast Hdone. revert w.
  induction Hpre as [|it pre [Hclean Hmore] _ IH]; intros w; cbv zeta;
    cbn [app]; rewrite receive_cons; cbv zeta.
  - rewrite (readLoop_dump_clean last w Hlast), Hdone, !result_mk, trace_mk.
    destruct (strip_spec (recvMsgs last)) as (Hstrip & _).
    rewrite (Hstrip Hdone).
    repeat split. eexists [_], _. split; reflexivity.
  - rewrite (readLoop_dump_clean it w Hclean), Hmore, !result_mk, !world_mk, !trace_mk.
    destruct (strip_spec (recvMsgs it)) as (_ & Hkeep & _).
    rewrite (Hkeep Hmore).
    cbv zeta in IH.
    destruct (IH (world ((pool_Reset ;; socket_Receive it) w)))
      as (Hres & Hmsgs & Hreads & t0 & e & Ht & He).
    split; [exact Hres|].
    split; [rewrite emitted_app, map_app, Hmsgs; reflexivity|].
    split; [rewrite receiveCalls_app, Hreads; reflexivity|].
    eexists (_ ++ t0), e. split; [|exact He].
    rewrite Ht. now rewrite app_assoc.
Qed.

(** X4. A table dump ends with the first batch whose last message is the
    done marker.  When the request is accepted and the batches read are
    clean (no read error, no failing message), [DumpTable] sends one Event
    per batch, in order and unchanged but for the marker taken off the last
    one, reads nothing after that batch, and closes the channel right after
    the Event of that batch. *)
Theorem dump_stops_at_done (family : byte) (d : DumpAnswers)
        (pre : list Iteration) (last : Iteration) (post : list Iteration)
        (w : World B) :
  snd (ansSend d) = None ->
  ansValidate d = None ->
  Forall (fun it => clean it /\ lastIsDone (recvMsgs it) = false) pre ->
  clean last ->
  lastIsDone (recvMsgs last) = true ->
  let r := DumpTable family d (pre ++ last :: post) w in
  result r = Returned /\
  map msgs (emitted (trace r)) =
    map recvMsgs pre ++ [removelast (recvMsgs last)] /\
  receiveCalls (trace r) = S (List.length pre) /\
  closes (trace r) = 1%nat /\
  exists t0 e, trace r = t0 ++ [ChanSend e; ChanClose] /\
               msgs e = removelast (recvMsgs last).
Proof.
  intros Hsend Hval Hpre Hlast Hdone. cbv zeta.
  pose proof (DumpTable_run family d (pre ++ last :: post) w) as Hrun.
  cbv zeta in Hrun. rewrite Hrun, Hsend, Hval. clear Hrun.
  destruct (receive_dump_clean pre last post w Hpre Hlast Hdone)
    as (Hres & Hmsgs & Hreads & t0 & e & Ht & He).
  cbv zeta in Hres, Hmsgs, Hreads, Ht. rewrite Hres, result_mk, trace_mk.
  pose proof (loop_never_closes true _
                (receive_actions true (pre ++ last :: post) w)) as Hnc.
  change (?x :: ?y :: ?t ++ ?u) with ([x; y] ++ t ++ u).
  split; [reflexivity|].
  split; [rewrite !emitted_app, !map_app, Hmsgs; cbn; now rewrite app_nil_r|].
  split; [rewrite !receiveCalls_app, Hreads; cbn; lia|].
  split; [rewrite !closes_app, Hnc; reflexivity|].
  exists ([CallSend (conn (consumer w)) (dumpRequest family);
           CallValidate (dumpRequest family) (fst (ansSend d))] ++ t0), e.
  split; [|exact He]. rewrite Ht, <- !app_assoc. reflexivity.
Qed.

(** X9. When the dump request is refused, by [Send] or by the validation of
    its answer, [DumpTable] reads nothing and sends no Event: it logs the
    error, closes the channel and leaves the consumer as it was.  After a
    failed [Send] the answer is not validated. *)
Theorem DumpTable_request_refused (family : byte) (d : DumpAnswers)
        (script : list Iteration) (w : World B) :
  snd (ansSend d) <> None \/ ansValidate d <> None ->
  let r := DumpTable family d script w in
  result r = Returned /\
  world r = w /\
  receiveCalls (trace r) = 0%nat /\
  emitted (trace r) = [] /\
  closes (trace r) = 1%nat /\
  (exists t e fmt, trace r = t ++ [Log Errorf_ fmt [argError e]; ChanClose]) /\
  (snd (ansSend d) <> None ->
   forallb (fun a => match a with CallValidate _ _ => false | _ => true end)
           (trace r) = true).
Proof.
  intros Hrefused. cbv zeta.
  pose proof (DumpTable_run family d script w) as Hrun. cbv zeta in Hrun.
  rewrite Hrun. clear Hrun.
  destruct (snd (ansSend d)) as [e|].
  - repeat split. eexists [_], e, _. reflexivity.
  - destruct (ansValidate d) as [e|].
    + repeat split; [eexists [_; _], e, _; reflexivity|].
      intros Habs. now contradiction Habs.
    + destruct Hrefused as [Habs|Habs]; now contradiction Habs.
Qed.

End Runs.

(** X5 on a stream that overflows ten times in a row. *)
Lemma receive_rebuilds_bounded_witness :
  (socketsBuilt
     (trace (@receive linux_amd64 _ countingBreakerOps false
               (repeat overflowTurn 10) freshWorld)) <= 7)%nat.
Proof.
  apply (@receive_rebuilds_bounded linux_amd64 _ countingBreakerOps false
           (repeat overflowTurn 10) freshWorld).
  reflexivity.
Defined.

(** X6 on a stream that ends when the socket is closed. *)
Lemma streaming_ends_witness :
  exists pre it post,
    [plainTurn; eofTurn; plainTurn] = pre ++ it :: post /\
    @receive linux_amd64 _ countingBreakerOps false
       [plainTurn; eofTurn; plainTurn] freshWorld =
    @receive linux_amd64 _ countingBreakerOps false (pre ++ [it]) freshWorld.
Proof.
  destruct (@streaming_ends linux_amd64 _ countingBreakerOps
              [plainTurn; eofTurn; plainTurn] freshWorld eq_refl)
    as (pre & it & post & Hsplit & Hsame & _).
  exists pre, it, post. split; [exact Hsplit|exact Hsame].
Defined.

(** X4 on a dump answered by two batches and a last one that ends in the
    done marker, with one more batch waiting behind it. *)
Lemma dump_stops_at_done_witness :
  receiveCalls
    (trace (@DumpTable linux_amd64 _ countingBreakerOps x02
              {| ansSend := (dumpRequest x02, None); ansValidate := None |}
              ([plainTurn; plainTurn] ++ doneLastTurn :: [plainTurn])
              freshWorld)) = 3%nat.
Proof.
  apply (@dump_stops_at_done linux_amd64 _ countingBreakerOps x02
           {| ansSend := (dumpRequest x02, None); ansValidate := None |}
           [plainTurn; plainTurn] doneLastTurn [plainTurn] freshWorld).
  - reflexivity.
  - reflexivity.
  - repeat constructor.
  - split; reflexivity.
  - reflexivity.
Defined.

(** X9 on a request whose answer fails the validation. *)
Lemma DumpTable_request_refused_witness :
  emitted
    (trace (@DumpTable linux_amd64 _ countingBreakerOps x02
              {| ansSend := (dumpRequest x02, None);
                 ansValidate := Some (errorString "validate: mismatched sequence") |}
              [plainTurn] freshWorld)) = [].
Proof.
  apply (@DumpTable_request_refused linux_amd64 _ countingBreakerOps x02
           {| ansSend := (dumpRequest x02, None);
              ansValidate := Some (errorString "validate: mismatched sequence") |}
           [plainTurn] freshWorld).
  right. discriminate.
Defined.

(** ** The pool under its protocol *)

Section PoolProtocol.

Lemma NoDup_remove_all (b : bufptr) (l : list bufptr) :
  NoDup l -> NoDup (remove Nat.eq_dec b l).
Proof.
  induction 1 as [|x l Hx _ IH]; cbn [remove]; [constructor|].
  destruct (Nat.eq_dec b x); [exact IH|].
  constructor; [|exact IH].
  intros Hin. apply in_remove in Hin. now apply Hx.
Qed.

Lemma dropNth_In (n : nat) (l : list bufptr) (x : bufptr) :
  In x (dropNth n l) -> In x l.
Proof.
  unfold dropNth. revert n. induction l as [|y l IH]; intros n.
  - now destruct n.
  - destruct n as [|n]; cbn [firstn skipn app].
    + intros Hin. now right.
    + intros [<-|Hin]; [now left|right; now apply (IH n)].
Qed.

Lemma dropNth_NoDup (n : nat) (l : list bufptr) :
  NoDup l -> NoDup (dropNth n l).
Proof.
  intros Hl. revert n. induction Hl as [|y l Hy Hl IH]; intros n.
  - destruct n; constructor.
  - destruct n as [|n]; unfold dropNth; cbn [firstn skipn app]; [exact Hl|].
    constructor; [|apply IH].
    intros Hin. apply Hy. now apply (dropNth_In n).
Qed.

Lemma lend_sound (op : poolOp) (s : lending) :
  poolSound s ->
  match op with OpDone b => In b (lent s) | _ => True end ->
  poolSound (lend op s).
Proof.
  intros (Hlent & Hfree & Hdisj & Hmade) Hop.
  destruct s as [[use [fr mk]] ln]. cbn in *.
  destruct op as [|b| |n]; unfold poolSound; cbn.
  - unfold bufferPool_Get, syncPool_Get. cbn.
    destruct fr as [|b fr]; cbn.
    + repeat split.
      * constructor; [|exact Hlent].
        intros Hin. specialize (Hmade mk (or_introl Hin)). lia.
      * constructor.
      * intros b _ [].
      * intros b [[<-|Hin]|[]]; [lia|].
        specialize (Hmade b (or_introl Hin)). lia.
    + inversion Hfree as [|? ? Hb Hfr]; subst.
      repeat split.
      * constructor; [|exact Hlent].
        intros Hin. apply (Hdisj b Hin). now left.
      * exact Hfr.
      * intros x [<-|Hin] Hx; [contradiction|].
        apply (Hdisj x Hin). now right.
      * intros x [[<-|Hin]|Hin]; apply Hmade; auto; right; [now left|now right].
  - repeat split.
    + now apply NoDup_remove_all.
    + constructor; [|exact Hfree]. now apply Hdisj.
    + intros x Hin [<-|Hx]; apply in_remove in Hin as [Hin Hne];
        [contradiction|]. now apply (Hdisj x).
    + intros x [Hin|[<-|Hin]]; apply Hmade; auto.
      apply in_remove in Hin as [Hin _]. now left.
  - repeat split; assumption.
  - repeat split.
    + exact Hlent.
    + now apply dropNth_NoDup.
    + intros x Hin Hx. apply (Hdisj x Hin). now apply (dropNth_In n).
    + intros x [Hin|Hin]; apply Hmade; [now left|right; now apply (dropNth_In n)].
Qed.

Lemma lendAll_sound (ops : list poolOp) (s : lending) :
  poolSound s -> wellUsed ops s -> poolSound (lendAll ops s).
Proof.
  revert s. induction ops as [|op rest IH]; intros s Hs Hused; [exact Hs|].
  destruct Hused as [Hop Hrest]. cbn [lendAll fold_left].
  apply IH; [now apply lend_sound|exact Hrest].
Qed.

(** X10. As long as every buffer is given back at most once per lending
    (each [Done] is for a buffer that is lent at that time), the pool never
    lends a buffer twice: after any such sequence of [Get], [Done] and
    [Reset] on a new pool, with free buffers let go by [sync.Pool] at any
    time, no buffer is lent twice, no lent buffer is on the free list, the
    free list holds no buffer twice, and the buffer the next [Get] hands out
    is held by no one. *)
Theorem pool_never_lends_twice (ops : list poolOp) :
  wellUsed ops newLending ->
  let s := lendAll ops newLending in
  poolSound s /\
  ~ In (fst (bufferPool_Get (lentPool s))) (lent s).
Proof.
  intros Hused. cbv zeta.
  assert (Hnew : poolSound newLending).
  { unfold poolSound. cbn. repeat split; try constructor; intros b []; contradiction. }
  pose proof (lendAll_sound ops newLending Hnew Hused) as Hs.
  split; [exact Hs|].
  destruct Hs as (_ & _ & Hdisj & Hmade).
  unfold bufferPool_Get, syncPool_Get.
  destruct (free (Pool (lentPool (lendAll ops newLending)))) as [|b fr] eqn:Hfr;
    cbn; intros Hin.
  - specialize (Hmade _ (or_introl Hin)). lia.
  - apply (Hdisj b Hin). now left.
Qed.

End PoolProtocol.

(** X10 on two reads whose Events are released in turn. *)
Lemma pool_never_lends_twice_witness :
  poolSound (lendAll [OpReset; OpGet; OpReset; OpGet; OpDone 0%nat; OpReset;
                      OpGet; OpDone 1%nat; OpDrop 0; OpDone 0%nat] newLending).
Proof.
  apply (pool_never_lends_twice
           [OpReset; OpGet; OpReset; OpGet; OpDone 0%nat; OpReset;
            OpGet; OpDone 1%nat; OpDrop 0; OpDone 0%nat]).
  cbn. repeat split; auto.
Defined.

(** ** The check of a batch *)

Section BatchCheck.

Context `{Platform}.

(** X11. The loop over a batch stops at the first message that
    [checkMessage] rejects: the batch passes exactly when every message
    passes, and the error that is logged is the error of the first rejected
    message, whatever follows it. *)
Theorem checkMessages_first (ms : list netlink.Message) :
  (checkMessages ms = None <-> Forall (fun m => checkMessage m = None) ms) /\
  (forall e,
     checkMessages ms = Some e <->
     exists pre m post,
       ms = pre ++ m :: post /\
       Forall (fun m' => checkMessage m' = None) pre /\
       checkMessage m = Some e).
Proof.
  induction ms as [|m ms [IHnone IHsome]]; cbn [checkMessages].
  - split.
    + split; [constructor|reflexivity].
    + intros e. split; [discriminate|].
      intros (pre & m & post & Heq & _). now destruct pre.
  - destruct (checkMessage m) as [e0|] eqn:Hm.
    + split.
      * split; [discriminate|]. intros Hall. inversion Hall; congruence.
      * intros e. split.
        -- intros [= ->]. exists [], m, ms. repeat split; [constructor|exact Hm].
        -- intros (pre & m' & post & Heq & Hpre & Hm').
           destruct pre as [|p pre]; cbn in Heq; injection Heq as <- _.
           ++ congruence.
           ++ inversion Hpre; congruence.
    + split.
      * split.
        -- intros Hrest. constructor; [exact Hm|now apply IHnone].
        -- intros Hall. inversion Hall; subst. now apply IHnone.
      * intros e. split.
        -- intros Hrest. apply IHsome in Hrest as (pre & m' & post & -> & Hpre & Hm').
           exists (m :: pre), m', post. repeat split; [now constructor|exact Hm'].
        -- intros (pre & m' & post & Heq & Hpre & Hm').
           destruct pre as [|p pre]; cbn in Heq; injection Heq as <- Hms.
           ++ congruence.
           ++ apply IHsome. exists pre, m', post. inversion Hpre; subst.
              repeat split; assumption.
Qed.

End BatchCheck.

(** ** Sockets are used in order *)

Section SocketOrder.

Context `{Platform} {B : Type} `{CircuitBreaker B}.


Lemma on_order (closed : list sockid) (i : sockid) (t : list action) :
  forallb (isOn i) t = true ->
  socketOrder closed (Open i) t = Some (closed, Open i).
Proof.
  induction t as [|a t IH]; [reflexivity|]. cbn [forallb].
  intros Hon. apply andb_prop in Hon as [Ha Ht]. specialize (IH Ht).
  unfold isOn in Ha.
  destruct a; cbn in Ha; try discriminate; cbn [socketOrder calledOn];
    try exact IH;
    match goal with
    | |- context [useSocket _ _ ?s] =>
        destruct s as [j|]; [|discriminate]; cbn [useSocket]; rewrite Ha; exact IH
    end.
Qed.


Lemma silent_on (i : sockid) (t : list action) :
  forallb isSilent t = true -> forallb (isOn i) t = true.
Proof.
  induction t as [|a t IH]; [reflexivity|]. cbn [forallb].
  intros Hs. apply andb_prop in Hs as [Ha Ht].
  unfold isOn at 1. now rewrite Ha, (IH Ht).
Qed.




Lemma linked_same (w w' : World B) (i : sockid) (closed : list sockid) :
  sameLink w w' -> linked w i closed -> linked w' i closed.
Proof.
  intros (Hc & Hs & _ & Hn) (H1 & H2 & H3 & H4 & H5).
  unfold linked. rewrite Hc, Hs, Hn.
  repeat (split; [assumption|]); assumption.
Qed.












End SocketOrder.


(** ** The error code under either byte order *)

Section ByteOrder.

Lemma byteZ_range (b : byte) : 0 <= nlenc.byteZ b < 256.
Proof. destruct b; cbn; lia. Qed.

Lemma byteZ_zero (b : byte) : nlenc.byteZ b = 0 <-> b = x00.
Proof. destruct b; cbn; split; intros Heq; solve [reflexivity|discriminate]. Qed.

Lemma lor_le_add (a b : Z) : 0 <= a -> 0 <= b -> 0 <= Z.lor a b <= a + b.
Proof.
  intros Ha Hb. split; [now apply Z.lor_nonneg|].
  pose proof (Zbitwise.Z.add_lor_land a b) as Hsum.
  assert (0 <= Z.land a b) by (apply Z.land_nonneg; now left).
  lia.
Qed.

(** Four bytes assembled in any order of the shifts 0, 8, 16, 24. *)
Lemma assembled (a b c e : Z) :
  0 <= a < 256 -> 0 <= b < 256 -> 0 <= c < 256 -> 0 <= e < 256 ->
  let u := Z.lor (Z.lor a (Z.shiftl b 8)) (Z.lor (Z.shiftl c 16) (Z.shiftl e 24)) in
  0 <= u < 2 ^ 32 /\ (u = 0 <-> a = 0 /\ b = 0 /\ c = 0 /\ e = 0).
Proof.
  intros Ha Hb Hc He. cbv zeta. split.
  - assert (Hb8 : 0 <= Z.shiftl b 8 <= 255 * 2 ^ 8)
      by (rewrite Z.shiftl_mul_pow2 by lia; lia).
    assert (Hc16 : 0 <= Z.shiftl c 16 <= 255 * 2 ^ 16)
      by (rewrite Z.shiftl_mul_pow2 by lia; lia).
    assert (He24 : 0 <= Z.shiftl e 24 <= 255 * 2 ^ 24)
      by (rewrite Z.shiftl_mul_pow2 by lia; lia).
    pose proof (lor_le_add a (Z.shiftl b 8) ltac:(lia) ltac:(lia)) as H1.
    pose proof (lor_le_add (Z.shiftl c 16) (Z.shiftl e 24) ltac:(lia) ltac:(lia)) as H2.
    pose proof (lor_le_add _ _ (proj1 H1) (proj1 H2)) as H3.
    lia.
  - rewrite !Z.lor_eq_0_iff, !Z.shiftl_eq_0_iff by lia. tauto.
Qed.

Lemma toInt32_zero (u : Z) : 0 <= u < 2 ^ 32 -> (nlenc.toInt32 u = 0 <-> u = 0).
Proof.
  intros Hu. unfold nlenc.toInt32.
  destruct (Z.ltb_spec u (2 ^ 31)); lia.
Qed.

Lemma Some_eq {A : Type} (x y : A) : Some x = Some y -> x = y.
Proof. congruence. Qed.

Lemma Int32_zero `{Platform} (b0 b1 b2 b3 : byte) :
  nlenc.Int32 [b0; b1; b2; b3] = Some 0 <->
  [b0; b1; b2; b3] = [x00; x00; x00; x00].
Proof.
  unfold nlenc.Int32, nlenc.Uint32, option_map.
  pose proof (byteZ_range b0). pose proof (byteZ_range b1).
  pose proof (byteZ_range b2). pose proof (byteZ_range b3).
  destruct NativeEndian.
  - destruct (assembled (nlenc.byteZ b0) (nlenc.byteZ b1) (nlenc.byteZ b2)
                (nlenc.byteZ b3)) as [Hrange Hzero]; try assumption.
    cbv zeta in Hrange, Hzero. split.
    + intros Hz. apply Some_eq in Hz. apply (toInt32_zero _ Hrange) in Hz.
      apply Hzero in Hz as (Ha & Hb & Hc & He).
      apply byteZ_zero in Ha, Hb, Hc, He. now subst.
    + intros [= -> -> -> ->]. reflexivity.
  - destruct (assembled (nlenc.byteZ b3) (nlenc.byteZ b2) (nlenc.byteZ b1)
                (nlenc.byteZ b0)) as [Hrange Hzero]; try assumption.
    cbv zeta in Hrange, Hzero. split.
    + intros Hz. apply Some_eq in Hz. apply (toInt32_zero _ Hrange) in Hz.
      apply Hzero in Hz as (Ha & Hb & Hc & He).
      apply byteZ_zero in Ha, Hb, Hc, He. now subst.
    + intros [= -> -> -> ->]. reflexivity.
Qed.

Lemma slice4 (d : list byte) :
  (4 <= List.length d)%nat ->
  exists b0 b1 b2 b3, firstn 4 d = [b0; b1; b2; b3].
Proof.
  destruct d as [|b0 [|b1 [|b2 [|b3 rest]]]]; cbn [List.length]; try lia.
  intros _. now exists b0, b1, b2, b3.
Qed.

Lemma checkMessage_accepts `{Platform} (m : netlink.Message) :
  checkMessage m = None <->
  netlink.Type_ (netlink.Hdr m) <> netlink.Error \/
  firstn 4 (netlink.Data m) = [x00; x00; x00; x00].
Proof.
  unfold checkMessage.
  destruct (Z.eqb_spec (netlink.Type_ (netlink.Hdr m)) netlink.Error) as [Ht|Ht];
    cbn [negb]; [|split; [now left|reflexivity]].
  destruct (Z.ltb_spec (Z.of_nat (List.length (netlink.Data m))) 4) as [Hl|Hl].
  - split; [discriminate|]. intros [Habs|Hzero]; [contradiction|].
    apply (f_equal (@List.length byte)) in Hzero.
    rewrite length_firstn in Hzero. cbn [List.length] in Hzero. lia.
  - destruct (slice4 (netlink.Data m)) as (b0 & b1 & b2 & b3 & Hslice); [lia|].
    rewrite Hslice. pose proof (Int32_zero b0 b1 b2 b3) as Hzero.
    destruct (nlenc.Int32 [b0; b1; b2; b3]) as [c|] eqn:Hc.
    + unfold success. destruct (Z.eqb_spec c 0) as [->|Hnz]; cbn [negb].
      * split; [|reflexivity]. intros _. right. now apply Hzero.
      * split; [discriminate|]. intros [Habs|Hall]; [contradiction|].
        apply Hzero in Hall. congruence.
    + unfold nlenc.Int32, nlenc.Uint32 in Hc. discriminate.
Qed.

Lemma checkMessage_short `{Platform} (m : netlink.Message) :
  checkMessage m = Some errShortErrorMessage <->
  netlink.Type_ (netlink.Hdr m) = netlink.Error /\
  (List.length (netlink.Data m) < 4)%nat.
Proof.
  unfold checkMessage.
  destruct (Z.eqb_spec (netlink.Type_ (netlink.Hdr m)) netlink.Error) as [Ht|Ht];
    cbn [negb]; [|split; [discriminate|intros [Habs _]; contradiction]].
  destruct (Z.ltb_spec (Z.of_nat (List.length (netlink.Data m))) 4) as [Hl|Hl].
  - split; [intros _; split; [assumption|lia]|reflexivity].
  - split; [|intros [_ Hlen]; lia].
    destruct (nlenc.Int32 _) as [c|]; [|discriminate].
    destruct (negb (c =? success)); discriminate.
Qed.

(** X13. Whether [checkMessage] rejects a message does not depend on the
    byte order of the platform: on any platform a message is accepted
    exactly when its type is not [netlink.Error], or the first four bytes of
    its payload are there and are zero.  Nor does the short-message error
    depend on it; only the number of a system error does. *)
Theorem checkMessage_any_byte_order (P1 P2 : Platform) (m : netlink.Message) :
  (@checkMessage P1 m = None <->
   netlink.Type_ (netlink.Hdr m) <> netlink.Error \/
   firstn 4 (netlink.Data m) = [x00; x00; x00; x00]) /\
  (@checkMessage P1 m = None <-> @checkMessage P2 m = None) /\
  (@checkMessage P1 m = Some errShortErrorMessage <->
   @checkMessage P2 m = Some errShortErrorMessage).
Proof.
  split; [apply checkMessage_accepts|]. split.
  - now rewrite !checkMessage_accepts.
  - now rewrite !checkMessage_short.
Qed.

End ByteOrder.

(** ** Membership of the multicast group *)

Section Membership.

Context `{Platform} {B : Type} `{CircuitBreaker B}.

Lemma joined_app (now : option (option sockid)) (t1 t2 : list action) :
  joined now (t1 ++ t2) = joined (joined now t1) t2.
Proof.
  revert now. induction t1 as [|a t1 IH]; intros now; [reflexivity|].
  cbn [app joined]. destruct a; apply IH.
Qed.

Lemma quiet_joined (now : option (option sockid)) (t : list action) :
  forallb isQuiet t = true -> joined now t = now.
Proof.
  induction t as [|a t IH]; [reflexivity|]. cbn [forallb].
  intros Hq. apply andb_prop in Hq as [Ha Ht].
  destruct a; try discriminate; cbn [joined]; now apply IH.
Qed.

Lemma throttle_joined (a : Answers) (w : World B)
      (now : option (option sockid)) :
  result (throttle a w) = None ->
  joined now (trace (throttle a w)) = Some (conn (consumer (world (throttle a w)))).
Proof.
  pose proof (throttle_run a w) as Hrun. cbv zeta in Hrun. rewrite Hrun.
  destruct (result (initNetlinkSocket a _ w)); rewrite result_mk;
    [discriminate|intros _].
  rewrite trace_mk, world_mk.
  change (?x :: ?l ++ ?t) with ([x] ++ l ++ t).
  rewrite !app_assoc, joined_app. reflexivity.
Qed.

Lemma readLoop_joined (it : Iteration) (w : World B) :
  result (readLoop false it w) = Continue ->
  joined (Some (conn (consumer w))) (trace (readLoop false it w)) =
  Some (conn (consumer (world (readLoop false it w)))).
Proof.
  destruct (readLoop_cases false it w) as
    [((Hconn & _) & Hq & _)|(_ & w1 & t0 & _ & Hq & Hturn)].
  - intros _. now rewrite (quiet_joined _ _ Hq), Hconn.
  - cbv zeta in Hturn. rewrite Hturn, result_mk, trace_mk, world_mk.
    destruct (result (throttle (answers it) w1)) eqn:Hth; [discriminate|].
    intros _. rewrite joined_app. now apply throttle_joined.
Qed.

Lemma receive_joined (script : list Iteration) (w : World B) :
  result (receive false script w) = Running ->
  joined (Some (conn (consumer w))) (trace (receive false script w)) =
  Some (conn (consumer (world (receive false script w)))).
Proof.
  revert w. induction script as [|it rest IH]; intros w; [reflexivity|].
  rewrite receive_cons. cbv zeta.
  destruct (result (readLoop false it w)) eqn:Hres;
    rewrite result_mk; [|discriminate].
  intros Hrun. rewrite trace_mk, world_mk, joined_app.
  rewrite (readLoop_joined it w Hres). now apply IH.
Qed.

(** X14. While the streaming loop of [Events] is running, the consumer is a
    member of the multicast group on its current connection: the group was
    joined on the connection the consumer holds now, and since then the group
    was not left and no socket was closed or made.  So after every throttle
    that lets the loop go on, the consumer is subscribed again on the new
    socket. *)
Theorem Events_stays_subscribed (script : list Iteration) (w : World B) :
  result (Events script w) = Running ->
  joined None (trace (Events script w)) =
  Some (conn (consumer (world (Events script w)))).
Proof.
  rewrite Events_run. cbv zeta. rewrite result_mk, trace_mk, world_mk.
  intros Hrun. cbn [joined]. now apply receive_joined.
Qed.

End Membership.

(** X14 on a stream that overflows twice between batches. *)
Lemma Events_stays_subscribed_witness :
  joined None
    (trace (@Events linux_amd64 _ countingBreakerOps
              [plainTurn; overflowTurn; plainTurn; overflowTurn] freshWorld))
  = Some (Some 2%nat).
Proof.
  apply (@Events_stays_subscribed linux_amd64 _ countingBreakerOps
           [plainTurn; overflowTurn; plainTurn; overflowTurn] freshWorld).
  reflexivity.
Defined.
